(** * resizer: a shallow embedding of the image pipeline and its batch driver

  The development follows the layout of the repository:
  - [JsString] : the string methods the code calls (split, join, slice,
                 replaceAll, String(n))
  - [Utils]    : src/utils.js (sanitizeFilename, inferOutputName,
                 makeUniqueName, hexToRgba, clamp)
  - [Pipeline] : src/pipeline.js (computeDrawRect, applySharpen,
                 correctOrientationToCanvas, the metadata injectors,
                 transformSingle and processBatch), over a [Host] record
                 for what the browser, exifr, piexif and JSZip provide
  - [Demo]     : a small concrete host on which the model runs
  - [ZipName]  : the archive-name module (getSafeBaseName, getCommonPrefix,
                 computeZipFilename)
  - [Ctm]      : the transformation matrix of a 2D context, to follow where
                 [drawImage] puts a bitmap

  Conventions of the embedding.
  - A JavaScript string is a [string]; each [ascii] stands for one UTF-16
    code unit below 256.
  - A JavaScript number that the code only uses as an integer (canvas
    sizes, counters, channel values) is a [Z], [N] or [nat]; where the code
    divides, the number is an exact rational [Q] and [Math.round x] is
    [Qfloor (x + 1/2)].
  - A promise is its outcome: a value of [result], [Resolved v] or
    [Rejected e]; [await] is the bind of that monad.
  - A [Set] of strings is a [gset string]; a [Map] from strings is a [gmap]. *)

From Stdlib Require Import ZArith QArith Qround Qminmax Lia Ascii String List.
From Stdlib Require Import DecimalString DecimalN.
From stdpp Require Import base gmap strings list sets.

Local Open Scope Z_scope.

#[local] Set Warnings "-clear-no-such-hyp".

(** ** Generic helpers on JavaScript strings *)

Module JsString.

Fixpoint map (f : ascii -> ascii) (s : string) : string :=
  match s with
  | EmptyString => EmptyString
  | String c r => String (f c) (map f r)
  end.

Fixpoint forallb (p : ascii -> bool) (s : string) : bool :=
  match s with
  | EmptyString => true
  | String c r => p c && forallb p r
  end.

(** Drops the longest prefix whose characters all satisfy [p]. *)
Fixpoint drop_while (p : ascii -> bool) (s : string) : string :=
  match s with
  | EmptyString => EmptyString
  | String c r => if p c then drop_while p r else s
  end.

(** Drops the longest suffix whose characters all satisfy [p]. *)
Fixpoint drop_while_end (p : ascii -> bool) (s : string) : string :=
  match s with
  | EmptyString => EmptyString
  | String c r =>
      match drop_while_end p r with
      | EmptyString => if p c then EmptyString else String c EmptyString
      | r' => String c r'
      end
  end.

(** [s.slice(0, n)] for a non-negative [n]. *)
Fixpoint take (n : nat) (s : string) : string :=
  match n, s with
  | O, _ => EmptyString
  | _, EmptyString => EmptyString
  | S n', String c r => String c (take n' r)
  end.

(** [s.split(sep)] for a one-character separator: never the empty list. *)
Fixpoint split (sep : ascii) (s : string) : list string :=
  match s with
  | EmptyString => [EmptyString]
  | String c r =>
      if Ascii.eqb c sep then EmptyString :: split sep r
      else match split sep r with
           | [] => [String c EmptyString]
           | p :: ps => String c p :: ps
           end
  end.

(** [parts.join(sep)]. *)
Fixpoint join (sep : string) (parts : list string) : string :=
  match parts with
  | [] => EmptyString
  | [p] => p
  | p :: ps => p +:+ sep +:+ join sep ps
  end.

(** ASCII upper-casing: what the [i] flag of a regular expression without
    the [u] flag identifies among the code units below 128. *)
Definition upcase (c : ascii) : ascii :=
  let n := nat_of_ascii c in
  if (97 <=? n)%nat && (n <=? 122)%nat then ascii_of_nat (n - 32) else c.

(** [String(n)] for a non-negative integer. *)
Definition of_N (n : N) : string := NilZero.string_of_uint (N.to_uint n).

(** [String(z)] for an integer. *)
Definition of_Z (z : Z) : string :=
  if z <? 0 then "-" +:+ of_N (Z.to_N (- z)) else of_N (Z.to_N z).

Definition is_empty (s : string) : bool :=
  match s with EmptyString => true | _ => false end.

(** [s.slice(n)] for a non-negative [n]. *)
Fixpoint drop (n : nat) (s : string) : string :=
  match n, s with
  | O, _ => s
  | _, EmptyString => EmptyString
  | S n', String _ r => drop n' r
  end.

(** The expansion of a replacement string for one match of a string
    pattern: [$$], [$&], the text before the match and the text after it, the
    last two written with a dollar and a backquote or a quote; a dollar
    before anything else stays (a string pattern captures nothing). *)
Fixpoint substitution (template matched before after : string) : string :=
  match template with
  | EmptyString => EmptyString
  | String a t =>
      if Ascii.eqb a "$"%char then
        match t with
        | String c r =>
            if Ascii.eqb c "$"%char then String "$"%char
                 (substitution r matched before after)
            else if Ascii.eqb c "&"%char then
                 matched +:+ substitution r matched before after
            else if Ascii.eqb c "`"%char then
                 before +:+ substitution r matched before after
            else if Ascii.eqb c "'"%char then
                 after +:+ substitution r matched before after
            else String a (substitution t matched before after)
        | EmptyString => String a EmptyString
        end
      else String a (substitution t matched before after)
  end.

(** The scan of [replaceAll]: [pos] is the position of [rest] in [whole],
    and [skip] the number of characters of the last match still to pass. *)
Fixpoint replaceAll_scan (pattern replacement whole : string) (pos skip : nat)
    (rest : string) : string :=
  match rest with
  | EmptyString => EmptyString
  | String c r =>
      match skip with
      | S k => replaceAll_scan pattern replacement whole (S pos) k r
      | O =>
          if String.prefix pattern rest then
            substitution replacement pattern (take pos whole)
              (drop (pos + String.length pattern) whole)
            +:+ replaceAll_scan pattern replacement whole (S pos)
                  (String.length pattern - 1) r
          else
            String c (replaceAll_scan pattern replacement whole (S pos) 0 r)
      end
  end.

(** [s.replaceAll(pattern, replacement)] for a non-empty string pattern:
    the matches are found from left to right without overlap. *)
Definition replaceAll (pattern replacement s : string) : string :=
  replaceAll_scan pattern replacement s 0 0 s.

End JsString.

(** ** src/utils.js *)

Module Utils.

(** The character class of the first replacement: backslash, slash, colon,
    star, question mark, double quote, less-than, greater-than and bar. *)
Definition is_forbidden (c : ascii) : bool :=
  match nat_of_ascii c with
  | 92 | 47 | 58 | 42 | 63 | 34 | 60 | 62 | 124 => true
  | _ => false
  end%nat.

(** The class [\s] (and the characters [trim] strips) among the code units
    below 256: TAB, LF, VT, FF, CR, SPACE and NBSP. *)
Definition is_space (c : ascii) : bool :=
  match nat_of_ascii c with
  | 9 | 10 | 11 | 12 | 13 | 32 | 160 => true
  | _ => false
  end%nat.

Definition is_space_or_dot (c : ascii) : bool :=
  is_space c || Ascii.eqb c "."%char.

Definition replace_forbidden (s : string) : string :=
  JsString.map (fun c => if is_forbidden c then "-"%char else c) s.

(** [s.replace(/\s+/g, ' ')]: [in_run] tells that the previous character
    belonged to the run of white space being replaced. *)
Fixpoint collapse_spaces (in_run : bool) (s : string) : string :=
  match s with
  | EmptyString => EmptyString
  | String c r =>
      if is_space c
      then (if in_run then collapse_spaces true r
            else String " "%char (collapse_spaces true r))
      else String c (collapse_spaces false r)
  end.

Definition trim (s : string) : string :=
  JsString.drop_while_end is_space (JsString.drop_while is_space s).

(** [s.replace(/^[\s.]+|[\s.]+$/g, '')]. *)
Definition strip_dots_spaces (s : string) : string :=
  JsString.drop_while_end is_space_or_dot
    (JsString.drop_while is_space_or_dot s).

Definition is_digit_1_9 (c : ascii) : bool :=
  let n := nat_of_ascii c in (49 <=? n)%nat && (n <=? 57)%nat.

(** [/^(CON|PRN|AUX|NUL|COM[1-9]|LPT[1-9])$/i.test(s)]. *)
Definition reserved (s : string) : bool :=
  match JsString.map JsString.upcase s with
  | String "C" (String "O" (String "N" EmptyString))
  | String "P" (String "R" (String "N" EmptyString))
  | String "A" (String "U" (String "X" EmptyString))
  | String "N" (String "U" (String "L" EmptyString)) => true
  | String "C" (String "O" (String "M" (String d EmptyString)))
  | String "L" (String "P" (String "T" (String d EmptyString))) =>
      is_digit_1_9 d
  | _ => false
  end.

Definition sanitizeFilename (name : string) (maxLength : nat) : string :=
  let safe := replace_forbidden name in
  let safe := trim (collapse_spaces false safe) in
  let safe := strip_dots_spaces safe in
  let safe := if JsString.is_empty safe then "image" else safe in
  let safe := if reserved safe then safe +:+ "_" else safe in
  let safe :=
    if (maxLength <? String.length safe)%nat
    then JsString.take maxLength safe else safe in
  safe.

Definition defaultMaxLength : nat := 120.

(** What [inferOutputName] reads of its third argument. *)
Record NamingPreset : Type := {
  np_name : option string;
  np_width : Z;
  np_height : Z;
  np_format : string;
  np_namingPattern : option string;
  np_productName : option string
}.

(** [s.replace(/\.[^.]+$/, '')]: the text from the last dot on is dropped
    when at least one character follows that dot. *)
Definition strip_extension (s : string) : string :=
  let parts := JsString.split "."%char s in
  match parts with
  | [] | [_] => s
  | _ =>
      if JsString.is_empty (List.last parts EmptyString) then s
      else JsString.join "." (removelast parts)
  end.

Definition or_else (o : option string) (d : string) : string :=
  match o with
  | Some s => if JsString.is_empty s then d else s
  | None => d
  end.

Definition inferOutputName (inputName : string) (index : nat)
    (preset : NamingPreset) : string :=
  let base := strip_extension (or_else (Some inputName) "image") in
  let pattern := or_else (np_namingPattern preset) "{name}_{preset}" in
  JsString.replaceAll "{product}" (or_else (np_productName preset) "")
    (JsString.replaceAll "{format}" (np_format preset)
       (JsString.replaceAll "{height}" (JsString.of_Z (np_height preset))
          (JsString.replaceAll "{width}" (JsString.of_Z (np_width preset))
             (JsString.replaceAll "{preset}" (or_else (np_name preset) "preset")
                (JsString.replaceAll "{index}" (JsString.of_N (N.of_nat index))
                   (JsString.replaceAll "{name}" base pattern)))))).

(** [makeUniqueName]: the [while] loop, with [fuel] bounding the number of
    membership tests.  [candidate] and [counter] are the loop's two locals;
    [None] means the fuel ran out before a free name was found. *)
Fixpoint makeUniqueName_loop (fuel : nat) (baseName candidate : string)
    (counter : N) (usedNames : gset string) : option string :=
  match fuel with
  | O => None
  | S fuel' =>
      if decide (candidate ∈ usedNames)
      then makeUniqueName_loop fuel' baseName
             (baseName +:+ "-" +:+ JsString.of_N counter)
             (N.succ counter) usedNames
      else Some candidate
  end.

(** The set is mutated in place by the source: the model returns the name
    together with the set after [usedNames.add(candidate)].  The loop is run
    with one more unit of fuel than the set has elements, which is always
    enough (see [makeUniqueName_total]). *)
Definition makeUniqueName (baseName : string) (usedNames : gset string)
    : option (string * gset string) :=
  match makeUniqueName_loop (S (size usedNames)) baseName baseName 2%N
          usedNames with
  | Some candidate => Some (candidate, {[candidate]} ∪ usedNames)
  | None => None
  end.

(** One hexadecimal digit of the class [[a-f\d]] under the [i] flag. *)
Definition hex_digit (c : ascii) : option Z :=
  let n := Z.of_nat (nat_of_ascii c) in
  if (48 <=? n) && (n <=? 57) then Some (n - 48)
  else if (97 <=? n) && (n <=? 102) then Some (n - 87)
  else if (65 <=? n) && (n <=? 70) then Some (n - 55)
  else None.

(** [parseInt(two, 16)] on a pair of hexadecimal digits. *)
Definition hex_pair (a b : ascii) : option Z :=
  match hex_digit a, hex_digit b with
  | Some x, Some y => Some (16 * x + y)
  | _, _ => None
  end.

(** [hexToRgba]: an optional [#] and exactly six hexadecimal digits, else
    white.  The alpha argument is passed through. *)
Definition hexToRgba (hex : string) (alpha : Z) : Z * Z * Z * Z :=
  let body := match hex with String "#" r => r | _ => hex end in
  match body with
  | String r1 (String r2 (String g1 (String g2 (String b1 (String b2
      EmptyString))))) =>
      match hex_pair r1 r2, hex_pair g1 g2, hex_pair b1 b2 with
      | Some r, Some g, Some b => (r, g, b, alpha)
      | _, _, _ => (255, 255, 255, alpha)
      end
  | _ => (255, 255, 255, alpha)
  end.

(** [clamp]: [Math.max(min, Math.min(max, value))]. *)
Definition clamp (value min max : Q) : Q := Qmax min (Qmin max value).

End Utils.

(** ** Promises, and the document's canvas counter *)

(** What a rejected promise or a [throw] carries. *)
Inductive JsError : Type :=
| Error (message : string).

Inductive result (A : Type) : Type :=
| Resolved (a : A)
| Rejected (e : JsError).
Arguments Resolved {A} a.
Arguments Rejected {A} e.

(** The only state shared by the pipeline functions is the number of canvas
    elements created so far, which gives every new canvas its identity. *)
Definition M (A : Type) : Type := nat -> result (A * nat).

Definition ret {A} (a : A) : M A := fun st => Resolved (a, st).

Definition bind {A B} (m : M A) (k : A -> M B) : M B :=
  fun st =>
    match m st with
    | Resolved (a, st') => k a st'
    | Rejected e => Rejected e
    end.

Definition throw {A} (e : JsError) : M A := fun _ => Rejected e.

Definition lift {A} (r : result A) : M A :=
  fun st =>
    match r with
    | Resolved a => Resolved (a, st)
    | Rejected e => Rejected e
    end.

Declare Scope js_scope.
Delimit Scope js_scope with js.
Notation "'let*' x ':=' m 'in' k" := (bind m (fun x => k))
  (at level 10, x pattern, m at level 100, k at level 200) : js_scope.

(** ** src/pipeline.js: data *)

Module Pipeline.

Local Open Scope js_scope.

Inductive Format : Type := jpeg | png | webp | avif.

#[global] Instance Format_eq_dec : EqDecision Format.
Proof. solve_decision. Defined.

Record Preset : Type := {
  name : option string;
  width : option Z;
  height : option Z;
  fit : string;
  format : Format;
  quality : option Q;
  sharpen : Q;
  background : option string;
  keepAspect : option bool
}.

Record GlobalOptions : Type := {
  jpegDpi : Z;
  backgroundColor : option string;
  preserveTransparency : option bool;
  namingPattern : option string;
  productName : option string;
  comment : option string
}.

Record File : Type := {
  file_name : string;
  file_bytes : list Z
}.

Record ImageBitmap : Type := {
  bm_width : Z;
  bm_height : Z
}.

Record Exif : Type := {
  Orientation : option Z
}.

Record Blob : Type := {
  blob_bytes : string;
  blob_type : string
}.

#[global] Instance Blob_eq_dec : EqDecision Blob.
Proof. solve_decision. Defined.

Record DrawRect : Type := {
  x : Z;
  y : Z;
  w : Z;
  h : Z
}.

(** Truthiness of the optional fields the code tests with [!], [&&], [||]. *)
Definition truthyZ (o : option Z) : bool :=
  match o with Some n => negb (n =? 0) | None => false end.

Definition truthyS (o : option string) : bool :=
  match o with Some s => negb (JsString.is_empty s) | None => false end.

(** [a || b] on optional strings. *)
Definition orS (a b : option string) : option string :=
  if truthyS a then a else b.

(** [o !== false]. *)
Definition not_false (o : option bool) : bool :=
  match o with Some false => false | _ => true end.

(** [Math.round]: the nearest integer, halves rounded up. *)
Definition js_round (q : Q) : Z := Qfloor (q + (1 # 2)).

(** ** computeDrawRect *)

Definition computeDrawRect (srcW srcH dstW dstH : Z) (fit : string)
    : DrawRect :=
  if String.eqb fit "stretch"
  then {| x := 0; y := 0; w := dstW; h := dstH |}
  else
    let srcRatio := (inject_Z srcW / inject_Z srcH)%Q in
    let dstRatio := (inject_Z dstW / inject_Z dstH)%Q in
    let '(w, h) :=
      if String.eqb fit "cover" then
        if Qlt_le_dec dstRatio srcRatio
        then (js_round (inject_Z dstH * srcRatio), dstH)
        else (dstW, js_round (inject_Z dstW / srcRatio))
      else if String.eqb fit "contain" || String.eqb fit "inside" then
        if Qlt_le_dec dstRatio srcRatio
        then (dstW, js_round (inject_Z dstW / srcRatio))
        else (js_round (inject_Z dstH * srcRatio), dstH)
      else if String.eqb fit "outside" then
        if Qlt_le_dec dstRatio srcRatio
        then (js_round (inject_Z dstH * srcRatio), dstH)
        else (dstW, js_round (inject_Z dstW / srcRatio))
      else (dstW, dstH) in
    let x := js_round (inject_Z (dstW - w) / 2) in
    let y := js_round (inject_Z (dstH - h) / 2) in
    {| x := x; y := y; w := w; h := h |}.

(** ** applySharpen: the pixel kernel *)

Definition weights : list Z := [0; -1; 0; -1; 5; -1; 0; -1; 0].

(** [weights.reduce((a,b) => a + b, 0) || 1]. *)
Definition wSum : Z :=
  let s := fold_left Z.add weights 0 in if s =? 0 then 1 else s.

(** The nine [(kx, ky)] of the two inner loops, in the order they run. *)
Definition kernel_offsets : list (Z * Z) :=
  ky ← seqZ (-1) 3; kx ← seqZ (-1) 3; [(kx, ky)].

Definition index (width x y c : Z) : nat := Z.to_nat ((y * width + x) * 4 + c).

(** [get(x, y, c)]; every read the loops make is inside a buffer of
    [width * height * 4] bytes. *)
Definition get (src : list Z) (width x y c : Z) : Z :=
  nth (index width x y c) src 0.

(** Storing a number into a [Uint8ClampedArray]: clamped to 0..255 and
    rounded to the nearest integer, halves to the even one. *)
Definition to_uint8_clamped (q : Q) : Z :=
  if Qle_bool q 0 then 0
  else if Qle_bool 255 q then 255
  else
    let f := Qfloor q in
    match (q - inject_Z f ?= 1 # 2)%Q with
    | Lt => f
    | Gt => f + 1
    | Eq => if Z.even f then f else f + 1
    end.

Definition convolve (src : list Z) (width x y c : Z) : Z :=
  fold_left
    (fun acc '((kx, ky), wt) => acc + get src width (x + kx) (y + ky) c * wt)
    (combine kernel_offsets weights) 0.

Definition sharpen_channel (src : list Z) (width : Z) (intensity : Q)
    (x y c : Z) : Z :=
  let acc := convolve src width x y c in
  let val :=
    ((1 - intensity) * inject_Z (get src width x y c)
     + intensity * (inject_Z acc / inject_Z wSum))%Q in
  to_uint8_clamped (Qmax 0 (Qmin 255 val)).

(** The body of the [x] loop: three colour channels, then alpha. *)
Definition sharpen_pixel (src : list Z) (width : Z) (intensity : Q)
    (out : list Z) (x y : Z) : list Z :=
  let out :=
    fold_left
      (fun out c =>
         <[index width x y c := sharpen_channel src width intensity x y c]> out)
      (seqZ 0 3) out in
  <[index width x y 3 := get src width x y 3]> out.

Definition sharpen_row (src : list Z) (width : Z) (intensity : Q)
    (out : list Z) (y : Z) : list Z :=
  fold_left (fun out x => sharpen_pixel src width intensity out x y)
    (seqZ 1 (width - 2)) out.

(** [out] after the loops: it starts as [new Uint8ClampedArray(src.length)],
    all zero, and is what [imageData.data.set(out)] then writes back. *)
Definition sharpen_data (width height : Z) (intensity : Q) (src : list Z)
    : list Z :=
  fold_left (sharpen_row src width intensity)
    (seqZ 1 (height - 2)) (replicate (length src) 0).

(** ** The canvas, as the list of calls made on its 2D context *)

Inductive ImageSource : Type :=
| FromBitmap (b : ImageBitmap)
| FromCanvas (id : nat).

(** A CSS colour [rgba(r,g,b,a)]. *)
Definition Style : Type := (Z * Z * Z * Z)%type.

Inductive CanvasOp : Type :=
| ClearRect (x y w h : Z)
| FillRect (fillStyle : Style) (x y w h : Z)
| DrawImage (src : ImageSource) (x y : Z) (size : option (Z * Z))
| Translate (x y : Z)
| Rotate (turns_of_pi : Q)
| Scale (sx sy : Z)
| SetImageSmoothing (enabled : bool) (smoothingQuality : string)
| PutImageData (data : list Z) (x y : Z).

Record Canvas : Type := {
  canvas_id : nat;
  canvas_width : Z;
  canvas_height : Z;
  canvas_alpha : bool;
  canvas_ops : list CanvasOp
}.

Definition call (op : CanvasOp) (c : Canvas) : Canvas :=
  {| canvas_id := canvas_id c;
     canvas_width := canvas_width c;
     canvas_height := canvas_height c;
     canvas_alpha := canvas_alpha c;
     canvas_ops := canvas_ops c ++ [op] |}.

(** What a pixel of the destination holds before the first [drawImage]:
    nothing but the cleared surface (transparent when the context has an
    alpha channel), or a fill. *)
Inductive Paint : Type :=
| Cleared
| Filled (fillStyle : Style).

Definition in_rect (x y w h px py : Z) : bool :=
  (x <=? px) && (px <? x + w) && (y <=? py) && (py <? y + h).

Fixpoint paint_before_draw (ops : list CanvasOp) (acc : Paint) (px py : Z)
    : Paint :=
  match ops with
  | [] => acc
  | DrawImage _ _ _ _ :: _ => acc
  | ClearRect x y w h :: ops' =>
      paint_before_draw ops'
        (if in_rect x y w h px py then Cleared else acc) px py
  | FillRect st x y w h :: ops' =>
      paint_before_draw ops'
        (if in_rect x y w h px py then Filled st else acc) px py
  | _ :: ops' => paint_before_draw ops' acc px py
  end.

Definition is_fill (op : CanvasOp) : bool :=
  match op with FillRect _ _ _ _ _ => true | _ => false end.

(** ** What the browser and the bundled libraries provide *)

Inductive IfdValue : Type :=
| IfdRational (num den : Z)
| IfdShort (n : Z)
| IfdAscii (s : string).

(** [window.piexif]: [dump] and [insert] throw on what they cannot parse. *)
Record Piexif : Type := {
  piexif_dump : gmap Z IfdValue -> result string;
  piexif_insert : string -> string -> result string
}.

(** The tags of [piexif.ImageIFD] the code writes. *)
Definition ImageDescription : Z := 270.
Definition XResolution : Z := 282.
Definition YResolution : Z := 283.
Definition ResolutionUnit : Z := 296.

(** A folder-structured archive: JSZip keys an entry by its path
    [folder/name]; folder and entry names never contain a slash here. *)
Record Zip : Type := {
  zip_folders : gset string;
  zip_files : gmap (string * string) Blob
}.

Record Host : Type := {
  (** [window.exifr?.parse(blob)]; [None] for a falsy result. *)
  exifr_parse : list Z -> result (option Exif);
  (** [createImageBitmap(blob, options)]; the flag tells whether
      [imageOrientation: 'from-image'] was passed. *)
  createImageBitmap : list Z -> bool -> result ImageBitmap;
  (** whether [canvas.getContext('2d', {alpha})] is not null. *)
  getContext2d : Z -> Z -> bool -> bool;
  (** [ctx.getImageData(x, y, w, h).data]. *)
  getImageData : Canvas -> Z -> Z -> Z -> Z -> list Z;
  (** whether the canvas has a [toBlob] function. *)
  has_toBlob : Canvas -> bool;
  (** what [canvas.toBlob] passes to its callback; [None] for null. *)
  toBlob : Canvas -> string -> option Q -> option Blob;
  (** [FileReader.readAsDataURL], assumed to complete. *)
  readAsDataURL : Blob -> string;
  (** [window.piexif], when the script is loaded. *)
  piexif : option Piexif;
  atob : string -> result string;
  (** [zip.generateAsync]. *)
  generateAsync : Zip -> result Blob
}.

Section WithHost.

Context (host : Host).

(** ** loadImageWithMetadata *)

Definition loadImageWithMetadata (file : File) : M (ImageBitmap * Exif) :=
  let arrayBuffer := file_bytes file in
  let exif :=
    match exifr_parse host arrayBuffer with
    | Resolved (Some e) => e
    | Resolved None => {| Orientation := None |}
    | Rejected _ => {| Orientation := None |}
    end in
  let* imageBitmap :=
    lift (match createImageBitmap host arrayBuffer true with
          | Resolved b => Resolved b
          | Rejected _ => createImageBitmap host arrayBuffer false
          end) in
  ret (imageBitmap, exif).

(** ** getCanvasContext *)

Definition getCanvasContext (width height : Z) (useAlpha : bool) : M Canvas :=
  fun st =>
    if getContext2d host width height useAlpha
    then Resolved ({| canvas_id := st; canvas_width := width;
                      canvas_height := height; canvas_alpha := useAlpha;
                      canvas_ops := [] |}, S st)
    else Rejected (Error "2D context not available").

(** ** applySharpen *)

Definition applySharpen (ctx : Canvas) (width height : Z) (intensity : Q)
    : Canvas :=
  if Qle_bool intensity 0 then ctx
  else
    let src := getImageData host ctx 0 0 width height in
    call (PutImageData (sharpen_data width height intensity src) 0 0) ctx.

(** ** renderToBlob *)

Definition mime (format : Format) : string :=
  match format with
  | jpeg => "image/jpeg"
  | png => "image/png"
  | webp => "image/webp"
  | avif => "image/avif"
  end.

Definition renderToBlob (canvas : Canvas) (format : Format)
    (quality : option Q) : M Blob :=
  if negb (has_toBlob host canvas)
  then throw (Error "Canvas toBlob not available")
  else
    match toBlob host canvas (mime format) quality with
    | Some b => ret b
    | None => throw (Error "toBlob failed")
    end.

(** ** The metadata injectors *)

Definition rbind {A B} (r : result A) (k : A -> result B) : result B :=
  match r with
  | Resolved a => k a
  | Rejected e => Rejected e
  end.

(** The lines of both injectors from [piexif.dump] to [new Blob]; whatever
    they throw is caught by the enclosing [try]. *)
Definition reserialize (px : Piexif) (zeroth : gmap Z IfdValue)
    (dataUrl : string) : result Blob :=
  rbind (piexif_dump px zeroth) (fun exifBytes =>
  rbind (piexif_insert px exifBytes dataUrl) (fun inserted =>
  rbind (atob host (default "undefined"
                      (JsString.split "," inserted !! 1%nat)))
    (fun byteString =>
  match JsString.split ":" inserted !! 1%nat with
  | None => Rejected (Error "TypeError")
  | Some rest =>
      let mimeString := default "" (head (JsString.split ";" rest)) in
      Resolved {| blob_bytes := byteString; blob_type := mimeString |}
  end))).

(** The body of the [try] in [injectJpegDpiIfNeeded]. *)
Definition injectJpegDpi_try (blob : Blob) (dpi : Z) : result Blob :=
  let dataUrl := readAsDataURL host blob in
  match piexif host with
  | None => Rejected (Error "TypeError")
  | Some px =>
      let zeroth : gmap Z IfdValue :=
        <[ResolutionUnit := IfdShort 2]>
          (<[YResolution := IfdRational dpi 1]>
             (<[XResolution := IfdRational dpi 1]> ∅)) in
      reserialize px zeroth dataUrl
  end.

Definition injectJpegDpiIfNeeded (blob : Blob) (dpi : Z) : result Blob :=
  if dpi <=? 0 then Resolved blob
  else
    match injectJpegDpi_try blob dpi with
    | Resolved b => Resolved b
    | Rejected _ => Resolved blob
    end.

(** [[productName, comment].filter(Boolean).join(' - ')]. *)
Definition description (productName comment : option string) : string :=
  JsString.join " - "
    (omap (fun o => if truthyS o then o else None) [productName; comment]).

(** The body of the [try] in [injectJpegComment]. *)
Definition injectJpegComment_try (blob : Blob)
    (productName comment : option string) : result Blob :=
  let dataUrl := readAsDataURL host blob in
  let desc := description productName comment in
  match piexif host with
  | None => Rejected (Error "TypeError")
  | Some px =>
      let zeroth : gmap Z IfdValue :=
        if JsString.is_empty desc then ∅
        else <[ImageDescription := IfdAscii desc]> ∅ in
      reserialize px zeroth dataUrl
  end.

Definition injectJpegComment (blob : Blob)
    (productName comment : option string) : result Blob :=
  match injectJpegComment_try blob productName comment with
  | Resolved b => Resolved b
  | Rejected _ => Resolved blob
  end.

(** ** correctOrientationToCanvas *)

(** The calls of the [switch], for a destination of the given size. *)
Definition orientation_transform (orientation width height : Z)
    : list CanvasOp :=
  match orientation with
  | 2 => [Translate width 0; Scale (-1) 1]
  | 3 => [Translate width height; Rotate 1]
  | 4 => [Translate 0 height; Scale 1 (-1)]
  | 5 => [Rotate (1 # 2); Scale 1 (-1)]
  | 6 => [Rotate (1 # 2); Translate 0 (- height)]
  | 7 => [Rotate (1 # 2); Translate width (- height); Scale (-1) 1]
  | 8 => [Rotate (- (1 # 2)); Translate (- width) 0]
  | _ => []
  end.

Definition correctOrientationToCanvas (imageBitmap : ImageBitmap)
    (orientation : option Z) : M Canvas :=
  if negb (truthyZ orientation) || bool_decide (orientation = Some 1) then
    let* canvas :=
      getCanvasContext (bm_width imageBitmap) (bm_height imageBitmap) true in
    ret (call (DrawImage (FromBitmap imageBitmap) 0 0 None) canvas)
  else
    let o := default 0 orientation in
    let swap := (5 <=? o) && (o <=? 8) in
    let width :=
      if swap then bm_height imageBitmap else bm_width imageBitmap in
    let height :=
      if swap then bm_width imageBitmap else bm_height imageBitmap in
    let* canvas := getCanvasContext width height true in
    let canvas :=
      fold_left (fun c op => call op c)
        (orientation_transform o width height) canvas in
    ret (call (DrawImage (FromBitmap imageBitmap) 0 0 None) canvas).

(** ** transformSingle *)

(** Lines 221-232: the target size, one dimension derived from the other
    when only one is given. *)
Definition targetSize (preset : Preset) (srcW srcH : Z)
    : option Z * option Z :=
  let targetW := width preset in
  let targetH := height preset in
  if not_false (keepAspect preset) then
    let aspect := (inject_Z srcW / inject_Z srcH)%Q in
    if truthyZ targetW && negb (truthyZ targetH)
    then (targetW, Some (js_round (inject_Z (default 0 targetW) / aspect)))
    else if negb (truthyZ targetW) && truthyZ targetH
    then (Some (js_round (inject_Z (default 0 targetH) * aspect)), targetH)
    else (targetW, targetH)
  else (targetW, targetH).

(** Assigning to [canvas.width]: an unset dimension gives 0. *)
Definition canvas_dim (o : option Z) : Z := default 0 o.

Definition useAlphaOf (preset : Preset) (globalOptions : GlobalOptions)
    : bool :=
  negb (bool_decide (format preset = jpeg))
  && not_false (preserveTransparency globalOptions).

Definition singleDimOf (preset : Preset) : bool :=
  (truthyZ (width preset) && negb (truthyZ (height preset)))
  || (negb (truthyZ (width preset)) && truthyZ (height preset)).

Definition leavesMarginsOf (rect : DrawRect) (canvasW canvasH : Z) : bool :=
  (0 <? x rect) || (0 <? y rect)
  || (w rect <? canvasW) || (h rect <? canvasH).

(** [preset.background || globalOptions.backgroundColor || '#ffffff']. *)
Definition resolvedBackground (preset : Preset)
    (globalOptions : GlobalOptions) : string :=
  default "#ffffff"
    (orS (orS (background preset) (backgroundColor globalOptions))
       (Some "#ffffff")).

(** Lines 243-247: the draw rectangle. *)
Definition drawRectOf (preset : Preset) (srcW srcH canvasW canvasH : Z)
    : DrawRect :=
  if negb (singleDimOf preset)
  then computeDrawRect srcW srcH canvasW canvasH (fit preset)
  else {| x := 0; y := 0; w := canvasW; h := canvasH |}.

(** The condition of the [if] of line 251. *)
Definition paintsBackground (preset : Preset) (globalOptions : GlobalOptions)
    (rect : DrawRect) (canvasW canvasH : Z) : bool :=
  negb (useAlphaOf preset globalOptions)
  || (bool_decide (preserveTransparency globalOptions = Some false)
      && leavesMarginsOf rect canvasW canvasH).

(** Lines 218-262: from the oriented source to the composited and
    sharpened destination canvas. *)
Definition composite (orientedCanvas : Canvas) (preset : Preset)
    (globalOptions : GlobalOptions) : M Canvas :=
  let srcW := canvas_width orientedCanvas in
  let srcH := canvas_height orientedCanvas in
  let '(targetW, targetH) := targetSize preset srcW srcH in
  let useAlpha := useAlphaOf preset globalOptions in
  let* canvas :=
    getCanvasContext (canvas_dim targetW) (canvas_dim targetH) useAlpha in
  let canvas :=
    call (ClearRect 0 0 (canvas_width canvas) (canvas_height canvas)) canvas in
  let canvas := call (SetImageSmoothing true "high") canvas in
  let rect :=
    drawRectOf preset srcW srcH (canvas_width canvas) (canvas_height canvas) in
  let canvas :=
    if paintsBackground preset globalOptions rect (canvas_width canvas)
         (canvas_height canvas)
    then
      let bg := resolvedBackground preset globalOptions in
      call (FillRect (Utils.hexToRgba bg 1) 0 0 (canvas_width canvas)
              (canvas_height canvas)) canvas
    else canvas in
  let canvas :=
    call (DrawImage (FromCanvas (canvas_id orientedCanvas)) (x rect) (y rect)
            (Some (w rect, h rect))) canvas in
  let canvas :=
    if Qlt_le_dec 0 (sharpen preset)
    then applySharpen canvas (canvas_width canvas) (canvas_height canvas)
           (Qmin 1 (Qmax 0 (sharpen preset)))
    else canvas in
  ret canvas.

(** The string a [Format] stands for. *)
Definition formatName (format : Format) : string :=
  match format with
  | jpeg => "jpeg"
  | png => "png"
  | webp => "webp"
  | avif => "avif"
  end.

Definition extension (format : Format) : string :=
  match format with
  | jpeg => "jpg"
  | png => "png"
  | webp => "webp"
  | avif => "avif"
  end.

(** Lines 264-272: encoding, then the two best-effort injections. *)
Definition encode (canvas : Canvas) (preset : Preset)
    (globalOptions : GlobalOptions) : M Blob :=
  let* blob := renderToBlob canvas (format preset) (quality preset) in
  if bool_decide (format preset = jpeg) then
    let* blob :=
      if negb (jpegDpi globalOptions =? 0)
      then lift (injectJpegDpiIfNeeded blob (jpegDpi globalOptions))
      else ret blob in
    if truthyS (productName globalOptions) || truthyS (comment globalOptions)
    then lift (injectJpegComment blob (productName globalOptions)
                 (comment globalOptions))
    else ret blob
  else ret blob.

Definition transformSingle (file : File) (preset : Preset)
    (globalOptions : GlobalOptions) (index total : nat)
    : M (Blob * string) :=
  let* (imageBitmap, exif) := loadImageWithMetadata file in
  let* orientedCanvas :=
    correctOrientationToCanvas imageBitmap (Orientation exif) in
  let* canvas := composite orientedCanvas preset globalOptions in
  let* blob := encode canvas preset globalOptions in
  let outputName :=
    Utils.inferOutputName (file_name file) index
      {| Utils.np_name := name preset;
         Utils.np_width := canvas_width canvas;
         Utils.np_height := canvas_height canvas;
         Utils.np_format := formatName (format preset);
         Utils.np_namingPattern := namingPattern globalOptions;
         Utils.np_productName := productName globalOptions |} in
  let ext := extension (format preset) in
  ret (blob, outputName +:+ "." +:+ ext).

(** ** processBatch *)

(** The locals of [processBatch] that change from job to job; [progress]
    lists the calls of [onProgress], oldest first, and [yields] counts the
    [setTimeout] yields. *)
Record Batch : Type := {
  completed : nat;
  zip : Zip;
  folderUsedNames : gmap string (gset string);
  progress : list (nat * nat);
  yields : nat
}.

Definition emptyBatch : Batch :=
  {| completed := 0;
     zip := {| zip_folders := ∅; zip_files := ∅ |};
     folderUsedNames := ∅;
     progress := [];
     yields := 0 |}.

(** [parts.pop()] and [parts.join('.') || 'image']. *)
Definition splitOutputName (outputName : string) : string * string :=
  let parts := JsString.split "." outputName in
  let ext := List.last parts "" in
  let base := JsString.join "." (removelast parts) in
  (if JsString.is_empty base then "image" else base, ext).

(** [sanitizeFilename(preset.name || 'preset')]. *)
Definition folderNameOf (preset : Preset) : string :=
  Utils.sanitizeFilename (default "preset" (orS (name preset) (Some "preset")))
    Utils.defaultMaxLength.

(** Lines 295-309: filing one artifact.  The [Set] of used names is the
    object held by the [Map]: what [makeUniqueName] adds to it is seen by the
    next job of the same folder, so the model writes the set back.  [None]
    only if [makeUniqueName] ran out of fuel, which it never does. *)
Definition fileArtifact (preset : Preset) (total : nat) (hasProgress : bool)
    (blob : Blob) (outputName : string) (b : Batch) : option Batch :=
  let '(base, ext) := splitOutputName outputName in
  let safeBase := Utils.sanitizeFilename base Utils.defaultMaxLength in
  let folderName := folderNameOf preset in
  let used := default ∅ (folderUsedNames b !! folderName) in
  match Utils.makeUniqueName safeBase used with
  | None => None
  | Some (uniqueBase, used') =>
      let finalName := uniqueBase +:+ "." +:+ ext in
      let completed' := S (completed b) in
      Some {| completed := completed';
              zip := {| zip_folders := {[folderName]} ∪ zip_folders (zip b);
                        zip_files :=
                          <[(folderName, finalName) := blob]>
                            (zip_files (zip b)) |};
              folderUsedNames := <[folderName := used']> (folderUsedNames b);
              progress :=
                if hasProgress then progress b ++ [(completed', total)]
                else progress b;
              yields :=
                if (completed' mod 5 =? 0)%nat then S (yields b)
                else yields b |}
  end.

Definition job (globalOptions : GlobalOptions) (hasProgress : bool)
    (nfiles total : nat) (i : nat) (file : File) (b : Batch)
    (preset : Preset) : M Batch :=
  let* (blob, outputName) :=
    transformSingle file preset globalOptions i nfiles in
  match fileArtifact preset total hasProgress blob outputName b with
  | Some b' => ret b'
  | None => throw (Error "makeUniqueName: out of fuel")
  end.

Fixpoint foldM {A S : Type} (f : S -> A -> M S) (l : list A) (s : S) : M S :=
  match l with
  | [] => ret s
  | a :: l' => let* s' := f s a in foldM f l' s'
  end.

(** The two nested [for] loops. *)
Definition runJobs (files : list File) (presets : list Preset)
    (globalOptions : GlobalOptions) (hasProgress : bool) : M Batch :=
  let total := (length files * length presets)%nat in
  foldM
    (fun b '(i, file) =>
       foldM (job globalOptions hasProgress (length files) total i file)
         presets b)
    (imap (fun i file => (i, file)) files) emptyBatch.

Definition processBatch (files : list File) (presets : list Preset)
    (globalOptions : GlobalOptions) (hasProgress : bool) : M Blob :=
  let* b := runJobs files presets globalOptions hasProgress in
  lift (generateAsync host (zip b)).

End WithHost.

End Pipeline.

(** ** A small concrete host, for running the model *)

Module Demo.

Import Pipeline.

(** A fake codec: the first two bytes of a file are the size of its image,
    and a file with fewer than two bytes cannot be decoded.  Its [piexif]
    refuses every payload. *)
Definition host : Host :=
  {| exifr_parse := fun bytes =>
       Resolved (Some {| Orientation := nth_error bytes 2 |});
     createImageBitmap := fun bytes _ =>
       match bytes with
       | bw :: bh :: _ => Resolved {| bm_width := bw; bm_height := bh |}
       | _ => Rejected (Error "The source image could not be decoded.")
       end;
     getContext2d := fun _ _ _ => true;
     getImageData := fun _ _ _ gw gh => replicate (Z.to_nat (gw * gh * 4)) 200;
     has_toBlob := fun _ => true;
     toBlob := fun c type _ =>
       Some {| blob_bytes := "pixels"; blob_type := type |};
     readAsDataURL := fun b =>
       "data:" +:+ blob_type b +:+ ";base64," +:+ blob_bytes b;
     piexif :=
       Some {| piexif_dump := fun _ => Resolved "Exif";
               piexif_insert := fun _ _ =>
                 Rejected (Error "Given data is not jpeg.") |};
     atob := fun s => Resolved s;
     generateAsync := fun _ =>
       Resolved {| blob_bytes := "archive"; blob_type := "application/zip" |}
  |}.

Definition good : File :=
  {| file_name := "photo.jpg"; file_bytes := [16; 12; 6] |}.

Definition other : File :=
  {| file_name := "photo.png"; file_bytes := [9; 9] |}.

Definition bad : File := {| file_name := "broken.gif"; file_bytes := [] |}.

Definition web : Preset :=
  {| name := Some "web"; width := Some 8; height := Some 8;
     fit := "contain"; format := png; quality := Some (4 # 5);
     sharpen := 0; background := None; keepAspect := None |}.

Definition print : Preset :=
  {| name := Some "print"; width := Some 4; height := Some 4;
     fit := "cover"; format := jpeg; quality := Some (9 # 10);
     sharpen := 1 # 2; background := Some "#102030"; keepAspect := None |}.

Definition options : GlobalOptions :=
  {| jpegDpi := 300; backgroundColor := Some "#ffffff";
     preserveTransparency := Some true; namingPattern := None;
     productName := Some "Lamp"; comment := None |}.

(** An upright source canvas of 16 by 12. *)
Definition oriented : Canvas :=
  {| canvas_id := 0; canvas_width := 16; canvas_height := 12;
     canvas_alpha := true; canvas_ops := [] |}.

End Demo.

(** ** The archive-name module (the unnamed source file) *)

Module ZipName.

(** [getSafeBaseName]: the name, or [image] when it is missing or empty,
    without its extension, sanitized. *)
Definition getSafeBaseName (fileName : option string) : string :=
  let base := Utils.strip_extension (Utils.or_else fileName "image") in
  Utils.sanitizeFilename base Utils.defaultMaxLength.

(** The inner [while] of [getCommonPrefix]: the longest common prefix of two
    strings ([prefix.slice(0, j)]). *)
Fixpoint commonPrefix2 (prefix val : string) : string :=
  match prefix, val with
  | String a p, String b v =>
      if Ascii.eqb a b then String a (commonPrefix2 p v) else EmptyString
  | _, _ => EmptyString
  end.

(** The [for] loop of [getCommonPrefix], with its [break] on an empty
    prefix. *)
Fixpoint commonPrefixLoop (prefix : string) (values : list string) : string :=
  match values with
  | [] => prefix
  | val :: rest =>
      let prefix := commonPrefix2 prefix val in
      if JsString.is_empty prefix then prefix
      else commonPrefixLoop prefix rest
  end.

(** The class [[\s_.-]] of the separator expression. *)
Definition is_separator (c : ascii) : bool :=
  Utils.is_space c || Ascii.eqb c "_"%char || Ascii.eqb c "."%char
  || Ascii.eqb c "-"%char.

(** The index of the last separator of a string, counted from [pos]; [None]
    stands for the initial [-1]. *)
Fixpoint lastSeparator (pos : nat) (s : string) : option nat :=
  match s with
  | EmptyString => None
  | String c r =>
      match lastSeparator (S pos) r with
      | Some i => Some i
      | None => if is_separator c then Some pos else None
      end
  end.

Definition getCommonPrefix (values : list string) : string :=
  match values with
  | [] => EmptyString
  | [v] => v
  | v :: rest =>
      let prefix := commonPrefixLoop v rest in
      let prefix :=
        if (0 <? String.length prefix)%nat then
          match lastSeparator 0 prefix with
          | Some lastSep =>
              if (2 <? lastSep)%nat then JsString.take lastSep prefix
              else prefix
          | None => prefix
          end
        else prefix in
      if (String.length (Utils.trim prefix) <? 3)%nat then EmptyString
      else Utils.trim prefix
  end.

(** [s.replace(/[:.]/g, '-')]. *)
Definition dashTimestamp (s : string) : string :=
  JsString.map
    (fun c => if Ascii.eqb c ":"%char || Ascii.eqb c "."%char
              then "-"%char else c) s.

(** [computeZipFilename], for the names of the files ([None] for a file
    without a name) and the text [now] of [new Date().toISOString()]. *)
Definition computeZipFilename (files : list (option string)) (now : string)
    : string :=
  let safeBases := List.map getSafeBaseName files in
  let base :=
    match safeBases with
    | [] => "images"
    | [b] => Utils.or_else (Some b) "image"
    | b :: _ =>
        let common := getCommonPrefix safeBases in
        if negb (JsString.is_empty common) then common
        else Utils.or_else (Some b) "image" +:+ "+"
             +:+ JsString.of_N (N.of_nat (length safeBases - 1))
    end in
  let timestamp := dashTimestamp now in
  let name :=
    Utils.sanitizeFilename (base +:+ "_" +:+ timestamp)
      Utils.defaultMaxLength in
  name +:+ ".zip".

End ZipName.

(** ** The transformation matrix of a 2D context *)

Module Ctm.

(** The matrix [[a c e] [b d f] [0 0 1]] of the Canvas 2D API: a point
    [(x, y)] of the source lands on [(a x + c y + e, b x + d y + f)].  Only
    the rotations by quarter turns are represented, which are all the code
    uses. *)
Record Affine : Type := { a : Z; b : Z; c : Z; d : Z; e : Z; f : Z }.

Definition identity : Affine :=
  {| a := 1; b := 0; c := 0; d := 1; e := 0; f := 0 |}.

(** [m1 * m2]: [m2] is applied to a point first. *)
Definition mul (m1 m2 : Affine) : Affine :=
  {| a := a m1 * a m2 + c m1 * b m2;
     b := b m1 * a m2 + d m1 * b m2;
     c := a m1 * c m2 + c m1 * d m2;
     d := b m1 * c m2 + d m1 * d m2;
     e := a m1 * e m2 + c m1 * f m2 + e m1;
     f := b m1 * e m2 + d m1 * f m2 + f m1 |}.

Definition apply (m : Affine) (p : Z * Z) : Z * Z :=
  (a m * p.1 + c m * p.2 + e m, b m * p.1 + d m * p.2 + f m).

(** The matrix of [rotate(t * Math.PI)], clockwise, for a quarter turn. *)
Definition rotation (t : Q) : option Affine :=
  if Qeq_bool t 0 then Some identity
  else if Qeq_bool t (1 # 2) then
    Some {| a := 0; b := 1; c := -1; d := 0; e := 0; f := 0 |}
  else if Qeq_bool t 1 then
    Some {| a := -1; b := 0; c := 0; d := -1; e := 0; f := 0 |}
  else if Qeq_bool t (- (1 # 2)) then
    Some {| a := 0; b := -1; c := 1; d := 0; e := 0; f := 0 |}
  else None.

(** [translate], [rotate] and [scale] multiply the current matrix on the
    right; the other calls leave it alone. *)
Definition step (m : Affine) (op : Pipeline.CanvasOp) : option Affine :=
  match op with
  | Pipeline.Translate tx ty =>
      Some (mul m {| a := 1; b := 0; c := 0; d := 1; e := tx; f := ty |})
  | Pipeline.Scale sx sy =>
      Some (mul m {| a := sx; b := 0; c := 0; d := sy; e := 0; f := 0 |})
  | Pipeline.Rotate t =>
      match rotation t with
      | Some r => Some (mul m r)
      | None => None
      end
  | _ => Some m
  end.

(** The matrix in force at the first [drawImage] of a list of calls with
    the place the image is drawn at; [None] when nothing is drawn or a
    rotation is not a quarter turn. *)
Fixpoint atDraw (m : Affine) (ops : list Pipeline.CanvasOp)
    : option (Affine * (Z * Z)) :=
  match ops with
  | [] => None
  | Pipeline.DrawImage _ dx dy _ :: _ => Some (m, (dx, dy))
  | op :: ops' =>
      match step m op with
      | Some m' => atDraw m' ops'
      | None => None
      end
  end.

(** Where the point [(sx, sy)] of the drawn image lands on the canvas. *)
Definition lands (ops : list Pipeline.CanvasOp) (sx sy : Z) : option (Z * Z) :=
  match atDraw identity ops with
  | Some (m, (dx, dy)) => Some (apply m (dx + sx, dy + sy))
  | None => None
  end.

End Ctm.

(** ** Vocabulary of the statements *)

Definition not_forbidden (c : ascii) : bool := negb (Utils.is_forbidden c).

(** The nine characters of the first replacement of [sanitizeFilename]. *)
Definition forbidden_chars : list ascii :=
  ["\"; "/"; ":"; "*"; "?"; "034"; "<"; ">"; "|"]%char.

(** The name tried when the counter of [makeUniqueName] is [k]. *)
Definition suffixed (baseName : string) (k : N) : string :=
  baseName +:+ "-" +:+ JsString.of_N k.

Definition not_dot (c : ascii) : bool := negb (Ascii.eqb c "."%char).

Definition dotfree (s : string) : Prop := JsString.forallb not_dot s = true.

(** What the two loops maintain between jobs. *)
Definition batch_inv (hasProgress : bool) (total : nat) (b : Pipeline.Batch)
    : Prop :=
  size (Pipeline.zip_files (Pipeline.zip b)) = Pipeline.completed b /\
  (forall folder fname,
      is_Some (Pipeline.zip_files (Pipeline.zip b) !! (folder, fname)) ->
      folder ∈ Pipeline.zip_folders (Pipeline.zip b) /\
      exists u e, fname = u +:+ String "."%char e /\ dotfree e /\
                  u ∈ default (∅ : gset string)
                        (Pipeline.folderUsedNames b !! folder)) /\
  Pipeline.progress b =
    (if hasProgress
     then (fun i => (i, total)) <$> seq 1 (Pipeline.completed b)
     else []).

(** A promise that resolves, whatever the canvas counter is. *)
Definition resolves {A} (m : M A) : Prop :=
  forall st, exists a st', m st = Resolved (a, st').

(** Whether an orientation code swaps width and height. *)
Definition swaps (orientation : option Z) : bool :=
  match orientation with
  | Some o => (5 <=? o) && (o <=? 8)
  | None => false
  end.

(** No call of [fillRect] among the calls. *)
Definition no_fill (ops : list Pipeline.CanvasOp) : bool :=
  forallb (fun op => negb (Pipeline.is_fill op)) ops.

(** The pixels on the 1-pixel border of a raster. *)
Definition on_border (width height px py : Z) : Prop :=
  px = 0 \/ px = width - 1 \/ py = 0 \/ py = height - 1.

(** ** Vocabulary of the further properties *)

(** An upper-case letter or a digit. *)
Definition is_upper_or_digit (c : ascii) : bool :=
  let n := nat_of_ascii c in
  ((65 <=? n)%nat && (n <=? 90)%nat) || ((48 <=? n)%nat && (n <=? 57)%nat).

(** The alternatives of the reserved-name expression, on a string that is
    already upper case. *)
Definition reservedShape (u : string) : bool :=
  match u with
  | String "C" (String "O" (String "N" EmptyString))
  | String "P" (String "R" (String "N" EmptyString))
  | String "A" (String "U" (String "X" EmptyString))
  | String "N" (String "U" (String "L" EmptyString)) => true
  | String "C" (String "O" (String "M" (String d EmptyString)))
  | String "L" (String "P" (String "T" (String d EmptyString))) =>
      Utils.is_digit_1_9 d
  | _ => false
  end.

(** Every white-space character is a plain space, and no two follow each
    other. *)
Fixpoint single_spaced (after_space : bool) (s : string) : bool :=
  match s with
  | EmptyString => true
  | String c r =>
      if Utils.is_space c
      then Ascii.eqb c " "%char && negb after_space && single_spaced true r
      else single_spaced false r
  end.

Fixpoint last_char (s : string) : option ascii :=
  match s with
  | EmptyString => None
  | String c r =>
      match last_char r with
      | Some l => Some l
      | None => Some c
      end
  end.

(** Not empty, and neither the first nor the last character is white space
    or a dot. *)
Definition ends_ok (s : string) : bool :=
  match s, last_char s with
  | String c _, Some l =>
      negb (Utils.is_space_or_dot c) && negb (Utils.is_space_or_dot l)
  | _, _ => false
  end.

(** A name [sanitizeFilename] has nothing to do on. *)
Definition clean (name : string) (maxLength : nat) : bool :=
  JsString.forallb not_forbidden name && single_spaced false name
  && ends_ok name && negb (Utils.reserved name)
  && (String.length name <=? maxLength)%nat.

(** Neither an opening brace, which starts a placeholder, nor a dollar,
    which starts a replacement pattern. *)
Definition plain_char (c : ascii) : bool :=
  negb (Ascii.eqb c "{"%char) && negb (Ascii.eqb c "$"%char).

Definition plain (s : string) : bool := JsString.forallb plain_char s.

(** [hexToRgba] on the six digits that follow the optional hash. *)
Definition hexBody (body : string) (alpha : Z) : Z * Z * Z * Z :=
  match body with
  | String r1 (String r2 (String g1 (String g2 (String b1 (String b2
      EmptyString))))) =>
      match Utils.hex_pair r1 r2, Utils.hex_pair g1 g2,
            Utils.hex_pair b1 b2 with
      | Some r, Some g, Some b => (r, g, b, alpha)
      | _, _, _ => (255, 255, 255, alpha)
      end
  | _ => (255, 255, 255, alpha)
  end.

(** The lower-case hexadecimal digit of a value below 16. *)
Definition hexChar (v : Z) : ascii :=
  if v <? 10 then ascii_of_nat (Z.to_nat (48 + v))
  else ascii_of_nat (Z.to_nat (87 + v)).

Definition hexByte (v : Z) : string :=
  String (hexChar (v / 16)) (String (hexChar (v mod 16)) EmptyString).

(** The CSS text [#rrggbb] of a colour. *)
Definition hexColor (r g b : Z) : string :=
  "#" +:+ hexByte r +:+ hexByte g +:+ hexByte b.



Definition fullCanvas (cw ch : Z) : Pipeline.DrawRect :=
  {| Pipeline.x := 0; Pipeline.y := 0; Pipeline.w := cw; Pipeline.h := ch |}.

(** By how much the bitmap drawn by [correctOrientationToCanvas] misses the
    canvas, for a bitmap of [bw] by [bh]. *)
Definition misplacement (orientation : option Z) (bw bh : Z) : Z * Z :=
  match orientation with
  | Some 6 => (bw - bh, 0)
  | Some 7 => (bw - bh, bh - bw)
  | Some 8 => (0, bh - bw)
  | _ => (0, 0)
  end.

(** A value a [Uint8ClampedArray] can hold. *)
Definition byte (v : Z) : Prop := 0 <= v <= 255.

(** The sum over the four neighbours the kernel weighs with -1. *)
Definition cross (src : list Z) (width x y c : Z) : Z :=
  Pipeline.get src width x (y - 1) c + Pipeline.get src width (x - 1) y c
  + Pipeline.get src width (x + 1) y c + Pipeline.get src width x (y + 1) c.

(** What every entry of the archive looks like. *)
Definition batch_names (presets : list Pipeline.Preset) (b : Pipeline.Batch)
    : Prop :=
  forall folder fname,
    is_Some (Pipeline.zip_files (Pipeline.zip b) !! (folder, fname)) ->
    exists preset u,
      preset ∈ presets /\ folder = Pipeline.folderNameOf preset /\
      fname = u +:+ "." +:+ Pipeline.extension (Pipeline.format preset) /\
      u <> EmptyString /\
      JsString.forallb not_forbidden u = true.

(** What the loops of [processBatch] maintain, after [k] jobs. *)
Definition job_inv (hasProgress : bool) (total : nat)
    (presets : list Pipeline.Preset) (k : nat) (b : Pipeline.Batch) : Prop :=
  batch_inv hasProgress total b /\
  Pipeline.completed b = k /\
  Pipeline.yields b = (k / 5)%nat /\
  batch_names presets b.


(** Every one of [values] starts with [p]. *)
Definition common (p : string) (values : list string) : Prop :=
  Forall (fun v => String.prefix p v = true) values.

(** Lines 36-42 of the archive-name module: back to the last separator,
    when it is past the third character. *)
Definition cutAtSeparator (prefix : string) : string :=
  match ZipName.lastSeparator 0 prefix with
  | Some lastSep =>
      if (2 <? lastSep)%nat then JsString.take lastSep prefix else prefix
  | None => prefix
  end.

(** Lines 44-45: trimmed, and dropped when shorter than three characters. *)
Definition discardShort (s : string) : string :=
  if (String.length (Utils.trim s) <? 3)%nat then EmptyString
  else Utils.trim s.

(** No character of [s] is [sep]. *)
Definition free (sep : ascii) (s : string) : bool :=
  JsString.forallb (fun c => negb (Ascii.eqb c sep)) s.

(** The data URL of a payload in base 64. *)
Definition dataUrlOf (mediaType payload : string) : string :=
  "data:" +:+ mediaType +:+ ";base64," +:+ payload.

(** The tags [injectJpegDpiIfNeeded] hands to [piexif.dump]. *)
Definition dpiTags (dpi : Z) : gmap Z Pipeline.IfdValue :=
  <[Pipeline.ResolutionUnit := Pipeline.IfdShort 2]>
    (<[Pipeline.YResolution := Pipeline.IfdRational dpi 1]>
       (<[Pipeline.XResolution := Pipeline.IfdRational dpi 1]> ∅)).

(** A piexif that accepts every image and appends what it was given to the
    payload, and the demo host with it. *)
Definition lenientPiexif : Pipeline.Piexif :=
  {| Pipeline.piexif_dump := fun _ => Resolved "Exif";
     Pipeline.piexif_insert := fun exifBytes dataUrl =>
       Resolved (dataUrl +:+ exifBytes) |}.

Definition lenientHost : Pipeline.Host :=
  {| Pipeline.exifr_parse := Pipeline.exifr_parse Demo.host;
     Pipeline.createImageBitmap := Pipeline.createImageBitmap Demo.host;
     Pipeline.getContext2d := Pipeline.getContext2d Demo.host;
     Pipeline.getImageData := Pipeline.getImageData Demo.host;
     Pipeline.has_toBlob := Pipeline.has_toBlob Demo.host;
     Pipeline.toBlob := Pipeline.toBlob Demo.host;
     Pipeline.readAsDataURL := Pipeline.readAsDataURL Demo.host;
     Pipeline.piexif := Some lenientPiexif;
     Pipeline.atob := Pipeline.atob Demo.host;
     Pipeline.generateAsync := Pipeline.generateAsync Demo.host |}.

(** * Properties *)

(** ** sanitizeFilename *)

Section SanitizeFacts.

Import Utils.

Variable ok : ascii -> bool.

Lemma forallb_drop_while p s :
  JsString.forallb ok s = true ->
  JsString.forallb ok (JsString.drop_while p s) = true.
Proof.
  induction s as [|c r IH]; simpl; [done|].
  intros [Hc Hr]%andb_true_iff. destruct (p c); [auto|].
  simpl. by rewrite Hc, Hr.
Qed.

Lemma forallb_drop_while_end p s :
  JsString.forallb ok s = true ->
  JsString.forallb ok (JsString.drop_while_end p s) = true.
Proof.
  induction s as [|c r IH]; simpl; [done|].
  intros [Hc Hr]%andb_true_iff. specialize (IH Hr).
  destruct (JsString.drop_while_end p r) eqn:E.
  - destruct (p c); simpl; [done|]. by rewrite Hc.
  - change (ok c && JsString.forallb ok (String a s) = true). by rewrite Hc, IH.
Qed.

Lemma forallb_take n s :
  JsString.forallb ok s = true ->
  JsString.forallb ok (JsString.take n s) = true.
Proof.
  revert s. induction n as [|n IH]; intros [|c r]; simpl; try done.
  intros [Hc Hr]%andb_true_iff. by rewrite Hc, IH.
Qed.

Lemma forallb_app s t :
  JsString.forallb ok s = true -> JsString.forallb ok t = true ->
  JsString.forallb ok (s +:+ t) = true.
Proof.
  induction s as [|c r IH]; simpl; [done|].
  intros [Hc Hr]%andb_true_iff Ht. by rewrite Hc, IH.
Qed.

Lemma forallb_collapse_spaces in_run s :
  ok " "%char = true ->
  JsString.forallb ok s = true ->
  JsString.forallb ok (collapse_spaces in_run s) = true.
Proof.
  intros Hsp. revert in_run.
  induction s as [|c r IH]; intros in_run; simpl; [done|].
  intros [Hc Hr]%andb_true_iff.
  destruct (is_space c), in_run; simpl; rewrite ?Hsp, ?Hc, ?IH; done.
Qed.

End SanitizeFacts.

Lemma take_length n s : (String.length (JsString.take n s) <= n)%nat.
Proof.
  revert s. induction n as [|n IH]; intros [|c r]; simpl; try lia.
  specialize (IH r). lia.
Qed.

Lemma take_nonempty n s :
  (0 < n)%nat -> s <> EmptyString -> JsString.take n s <> EmptyString.
Proof. destruct n, s; simpl; try done; lia. Qed.

Lemma app_nonempty_r s t : t <> EmptyString -> s +:+ t <> EmptyString.
Proof. destruct s, t; simpl; done. Qed.

Lemma replace_forbidden_ok s :
  JsString.forallb not_forbidden (Utils.replace_forbidden s) = true.
Proof.
  unfold Utils.replace_forbidden.
  induction s as [|c r IH]; simpl; [done|].
  rewrite IH, andb_true_r. unfold not_forbidden.
  destruct (Utils.is_forbidden c) eqn:E; [done|]. by rewrite E.
Qed.

Lemma forallb_In p s c :
  JsString.forallb p s = true -> In c (list_ascii_of_string s) -> p c = true.
Proof.
  induction s as [|a r IH]; simpl; [done|].
  intros [Ha Hr]%andb_true_iff [->|Hin]; auto.
Qed.

Lemma is_forbidden_chars c :
  In c forbidden_chars -> Utils.is_forbidden c = true.
Proof.
  unfold forbidden_chars. simpl.
  intros H. repeat (destruct H as [<-|H]; [reflexivity|]). done.
Qed.

Lemma sanitizeFilename_general name maxLength :
  (0 < maxLength)%nat ->
  let safe := Utils.sanitizeFilename name maxLength in
  safe <> EmptyString /\
  (String.length safe <= maxLength)%nat /\
  JsString.forallb not_forbidden safe = true.
Proof.
  intros Hmax. unfold Utils.sanitizeFilename.
  set (s3 := Utils.strip_dots_spaces _).
  assert (H3 : JsString.forallb not_forbidden s3 = true).
  { unfold s3, Utils.strip_dots_spaces, Utils.trim.
    apply forallb_drop_while_end, forallb_drop_while.
    apply forallb_drop_while_end, forallb_drop_while.
    apply forallb_collapse_spaces; [reflexivity|].
    apply replace_forbidden_ok. }
  set (s4 := if JsString.is_empty s3 then _ else _).
  assert (H4 : s4 <> EmptyString /\ JsString.forallb not_forbidden s4 = true).
  { unfold s4. destruct s3; simpl; [split; [done|reflexivity]|].
    split; [done|exact H3]. }
  destruct H4 as [H4n H4].
  set (s5 := if Utils.reserved s4 then _ else _).
  assert (H5 : s5 <> EmptyString /\ JsString.forallb not_forbidden s5 = true).
  { unfold s5. destruct (Utils.reserved s4); [|done].
    split; [by apply app_nonempty_r|]. by apply forallb_app. }
  destruct H5 as [H5n H5].
  destruct (maxLength <? String.length s5)%nat eqn:E.
  - split; [by apply take_nonempty|].
    split; [apply take_length|]. by apply forallb_take.
  - apply Nat.ltb_ge in E. done.
Qed.

(** ** makeUniqueName *)

Lemma of_N_inj a b : JsString.of_N a = JsString.of_N b -> a = b.
Proof.
  unfold JsString.of_N. intros H.
  assert (Hnn : forall n, N.to_uint n <> Decimal.Nil).
  { intros [|q]; simpl; [discriminate|].
    apply DecimalPos.Unsigned.to_uint_nonnil. }
  apply DecimalN.Unsigned.to_uint_inj.
  pose proof (NilZero.usu _ (Hnn a)) as Ha.
  pose proof (NilZero.usu _ (Hnn b)) as Hb.
  rewrite H in Ha. congruence.
Qed.

Lemma append_inj_l s t u : s +:+ t = s +:+ u -> t = u.
Proof. induction s; simpl; [done|]. intros [=]. auto. Qed.

Lemma append_length s t :
  String.length (s +:+ t) = (String.length s + String.length t)%nat.
Proof. induction s as [|c r IH]; simpl; [done|]. by rewrite IH. Qed.

Lemma suffixed_inj baseName j k :
  suffixed baseName j = suffixed baseName k -> j = k.
Proof.
  unfold suffixed. intros H%append_inj_l. simpl in H.
  injection H as H. by apply of_N_inj.
Qed.

Lemma suffixed_ne_base baseName k : suffixed baseName k <> baseName.
Proof.
  unfold suffixed. intros H%(f_equal String.length).
  rewrite append_length in H. simpl in H. lia.
Qed.

(** The loop leaves with the first free name, provided the fuel exceeds the
    number of used names not yet ruled out ([rem]). *)
Lemma makeUniqueName_loop_spec (usedNames : gset string) baseName :
  forall fuel candidate counter (rem : gset string),
    (size rem < fuel)%nat ->
    (candidate ∈ usedNames -> candidate ∈ rem) ->
    (forall k, (counter <= k)%N ->
               suffixed baseName k ∈ usedNames ->
               suffixed baseName k ∈ rem) ->
    (forall k, (counter <= k)%N -> suffixed baseName k <> candidate) ->
    exists c,
      Utils.makeUniqueName_loop fuel baseName candidate counter usedNames
        = Some c /\
      (c ∉ usedNames) /\
      ((c = candidate) \/
       (candidate ∈ usedNames /\
        exists k, (counter <= k)%N /\ c = suffixed baseName k /\
                  forall j, (counter <= j < k)%N ->
                            suffixed baseName j ∈ usedNames)).
Proof.
  induction fuel as [|fuel IH]; intros candidate counter rem Hsz Hc Hk Hne;
    [lia|].
  simpl. destruct (decide (candidate ∈ usedNames)) as [Hin|Hout].
  - destruct (IH (suffixed baseName counter) (N.succ counter)
                (rem ∖ {[candidate]})) as (c & Hrun & Hfree & Hshape).
    + assert (candidate ∈ rem) by auto.
      assert (size rem = size (rem ∖ {[candidate]}) + 1)%nat; [|lia].
      rewrite (size_difference rem {[candidate]}) by set_solver.
      rewrite size_singleton.
      assert (size rem <> 0)%nat; [|lia].
      apply size_non_empty_iff. set_solver.
    + intros Hu. apply elem_of_difference. split; [apply Hk; [lia|done]|].
      apply not_elem_of_singleton. apply Hne. lia.
    + intros k Hle Hu. apply elem_of_difference. split; [apply Hk; [lia|done]|].
      apply not_elem_of_singleton. apply Hne. lia.
    + intros k Hle Heq%suffixed_inj. lia.
    + exists c. split; [exact Hrun|]. split; [exact Hfree|]. right.
      split; [exact Hin|].
      destruct Hshape as [->|(Hin' & k & Hle & -> & Hsmall)].
      * exists counter. split; [lia|]. split; [done|]. intros j Hj. lia.
      * exists k. split; [lia|]. split; [done|]. intros j Hj.
        destruct (decide (j = counter)) as [->|Hjc]; [done|].
        apply Hsmall. lia.
  - exists candidate. auto.
Qed.

(** [makeUniqueName] always returns: the fuel it is given is enough. *)
Lemma makeUniqueName_total baseName (usedNames : gset string) :
  exists c,
    (Utils.makeUniqueName baseName usedNames
     = Some (c, {[c]} ∪ usedNames)) /\
    (c ∉ usedNames) /\
    (((baseName ∉ usedNames) /\ c = baseName) \/
     (baseName ∈ usedNames /\
      exists k, (2 <= k)%N /\ c = suffixed baseName k /\
                forall j, (2 <= j < k)%N -> suffixed baseName j ∈ usedNames)).
Proof.
  destruct (makeUniqueName_loop_spec usedNames baseName
              (S (size usedNames)) baseName 2%N usedNames)
    as (c & Hrun & Hfree & Hshape); [lia|done|done| |].
  { intros k _. apply suffixed_ne_base. }
  exists c. unfold Utils.makeUniqueName. rewrite Hrun.
  split; [done|]. split; [done|].
  destruct Hshape as [->|[Hin Hk]]; [left|right]; done.
Qed.

(** ** Extensions never contain a dot *)

Lemma split_ne_nil sep s : JsString.split sep s <> [].
Proof.
  destruct s as [|c r]; simpl; [done|].
  destruct (Ascii.eqb c sep); [done|]. by destruct (JsString.split sep r).
Qed.

Lemma split_dotfree s :
  Forall dotfree (JsString.split "."%char s).
Proof.
  induction s as [|c r IH]; simpl.
  - by constructor.
  - destruct (Ascii.eqb c "."%char) eqn:E.
    + constructor; [done|exact IH].
    + destruct (JsString.split "."%char r) as [|q qs]; constructor.
      * unfold dotfree, not_dot. simpl. by rewrite E.
      * constructor.
      * inversion IH as [|? ? Hq Hqs]; subst.
        unfold dotfree, not_dot in *. simpl. by rewrite E.
      * by inversion IH.
Qed.

Lemma last_in {A} (l : list A) d : l <> [] -> In (List.last l d) l.
Proof.
  induction l as [|a l IH]; [done|]. intros _.
  destruct l as [|b l]; [by left|].
  right. apply IH. done.
Qed.

Lemma splitOutputName_ext_dotfree outputName :
  dotfree (Pipeline.splitOutputName outputName).2.
Proof.
  unfold Pipeline.splitOutputName. simpl.
  pose proof (split_dotfree outputName) as H.
  rewrite Forall_forall in H. apply H.
  apply list_elem_of_In, last_in, split_ne_nil.
Qed.

Lemma dotfree_no_dot u e : dotfree (u +:+ String "."%char e) -> False.
Proof.
  unfold dotfree. induction u as [|c r IH]; simpl; [done|].
  intros [_ H]%andb_true_iff. auto.
Qed.

(** A name is cut at its last dot in one way only. *)
Lemma last_dot_unique u1 e1 u2 e2 :
  dotfree e1 -> dotfree e2 ->
  u1 +:+ String "."%char e1 = u2 +:+ String "."%char e2 ->
  u1 = u2 /\ e1 = e2.
Proof.
  intros H1 H2. revert u2.
  induction u1 as [|c r IH]; intros [|c' r']; simpl.
  - intros [= ?]. by subst.
  - intros [= ? ?]. subst. destruct (dotfree_no_dot _ _ H1).
  - intros [= ? ?]. subst. destruct (dotfree_no_dot _ _ H2).
  - intros [= ? H]. subst. destruct (IH _ H) as [-> ->]. done.
Qed.

(** ** The batch loop *)

Section BatchFacts.

Import Pipeline.

Context (host : Host) (globalOptions : GlobalOptions).
Context (hasProgress : bool) (nfiles total : nat).

Lemma batch_inv_empty : batch_inv hasProgress total emptyBatch.
Proof.
  split; [done|]. split; [|by destruct hasProgress].
  intros folder fname [v Hv]. simpl in Hv. by rewrite lookup_empty in Hv.
Qed.

Lemma fileArtifact_step preset blob outputName b :
  batch_inv hasProgress total b ->
  exists b',
    fileArtifact preset total hasProgress blob outputName b = Some b' /\
    batch_inv hasProgress total b' /\
    completed b' = S (completed b) /\
    zip_folders (zip b') = {[folderNameOf preset]} ∪ zip_folders (zip b).
Proof.
  intros (Hsize & Hfiles & Hprog). unfold fileArtifact.
  pose proof (splitOutputName_ext_dotfree outputName) as Hext.
  destruct (splitOutputName outputName) as [base ext]. simpl in Hext.
  set (folder := folderNameOf preset).
  set (used := default ∅ (folderUsedNames b !! folder)).
  destruct (makeUniqueName_total
              (Utils.sanitizeFilename base Utils.defaultMaxLength) used)
    as (c & -> & Hfree & _).
  eexists. split; [reflexivity|]. simpl.
  assert (Hnew : zip_files (zip b) !! (folder, c +:+ "." +:+ ext) = None).
  { destruct (zip_files (zip b) !! (folder, c +:+ "." +:+ ext)) eqn:E;
      [|done].
    destruct (Hfiles folder (c +:+ "." +:+ ext)) as (_ & u & e & Heq & He & Hu);
      [by rewrite E|].
    apply last_dot_unique in Heq as [-> _]; [|done|done]. done. }
  split; [|split; [done|done]].
  split; [|split]; simpl.
  - rewrite map_size_insert_None by done. lia.
  - intros folder' fname [v Hv].
    destruct (decide ((folder, c +:+ "." +:+ ext) = (folder', fname)))
      as [[= <- <-]|Hne].
    + split; [set_solver|]. exists c, ext. split; [done|]. split; [done|].
      rewrite lookup_insert_eq. simpl. set_solver.
    + rewrite lookup_insert_ne in Hv by done.
      destruct (Hfiles folder' fname) as (Hf & u & e & Heq & He & Hu);
        [by rewrite Hv|].
      split; [set_solver|]. exists u, e. split; [done|]. split; [done|].
      destruct (decide (folder = folder')) as [<-|Hnf].
      * rewrite lookup_insert_eq. simpl. fold used in Hu. set_solver.
      * by rewrite lookup_insert_ne.
  - rewrite Hprog. destruct hasProgress; [|done].
    change (((fun i => (i, total)) <$> seq 1 (completed b)) ++
              [(S (completed b), total)] =
            (fun i => (i, total)) <$> seq 1 (S (completed b))).
    rewrite seq_S, fmap_app. done.
Qed.

(** The loop over the presets of one file, when every job succeeds. *)
Lemma presets_loop i file (presets : list Preset) :
  (forall preset, preset ∈ presets ->
     resolves (transformSingle host file preset globalOptions i nfiles)) ->
  forall b st, batch_inv hasProgress total b ->
  exists b' st',
    foldM (job host globalOptions hasProgress nfiles total i file) presets b st
      = Resolved (b', st') /\
    batch_inv hasProgress total b' /\
    completed b' = (completed b + length presets)%nat /\
    zip_folders (zip b') =
      list_to_set (folderNameOf <$> presets) ∪ zip_folders (zip b).
Proof.
  induction presets as [|preset presets IH]; intros Hok b st Hinv.
  - exists b, st. simpl. split; [done|]. split; [done|].
    split; [lia|set_solver].
  - simpl. unfold bind at 1. unfold job at 1. unfold bind at 1.
    destruct (Hok preset (list_elem_of_here _ _) st) as ([blob out] & st1 & ->).
    destruct (fileArtifact_step preset blob out b Hinv)
      as (b1 & -> & Hinv1 & Hc1 & Hf1).
    unfold ret at 1.
    destruct (IH (fun q Hq => Hok q (list_elem_of_further _ _ _ Hq))
                b1 st1 Hinv1)
      as (b2 & st2 & Hrun & Hinv2 & Hc2 & Hf2).
    exists b2, st2. split; [exact Hrun|]. split; [done|].
    split; [lia|]. rewrite Hf2, Hf1. set_solver.
Qed.

(** The loop over the files, for any list of numbered files. *)
Lemma files_loop (presets : list Preset) (l : list (nat * File)) :
  (forall i file preset, (i, file) ∈ l -> preset ∈ presets ->
     resolves (transformSingle host file preset globalOptions i nfiles)) ->
  forall b st, batch_inv hasProgress total b ->
  exists b' st',
    foldM (fun b '(i, file) =>
             foldM (job host globalOptions hasProgress nfiles total i file)
               presets b) l b st
      = Resolved (b', st') /\
    batch_inv hasProgress total b' /\
    completed b' = (completed b + length l * length presets)%nat /\
    zip_folders (zip b') =
      (if l is [] then ∅ else list_to_set (folderNameOf <$> presets))
        ∪ zip_folders (zip b).
Proof.
  induction l as [|[i file] l IH]; intros Hok b st Hinv.
  - exists b, st. simpl. split; [done|]. split; [done|].
    split; [lia|set_solver].
  - simpl. unfold bind at 1.
    destruct (presets_loop i file presets
                (fun q Hq => Hok i file q (list_elem_of_here _ _) Hq) b st Hinv)
      as (b1 & st1 & -> & Hinv1 & Hc1 & Hf1).
    destruct (IH (fun j f q Hjf Hq =>
                    Hok j f q (list_elem_of_further _ _ _ Hjf) Hq) b1 st1 Hinv1)
      as (b2 & st2 & Hrun & Hinv2 & Hc2 & Hf2).
    exists b2, st2. split; [exact Hrun|]. split; [done|].
    split; [lia|]. rewrite Hf2, Hf1. destruct l; set_solver.
Qed.

End BatchFacts.

Section BatchTheorems.

Import Pipeline.

Context (host : Host).

Lemma runJobs_all_succeed files presets globalOptions hasProgress :
  (forall i file preset,
      files !! i = Some file -> preset ∈ presets ->
      resolves
        (transformSingle host file preset globalOptions i (length files))) ->
  forall st, exists b st',
    runJobs host files presets globalOptions hasProgress st
      = Resolved (b, st') /\
    batch_inv hasProgress (length files * length presets) b /\
    completed b = (length files * length presets)%nat /\
    (files <> [] ->
     zip_folders (zip b) = list_to_set (folderNameOf <$> presets)).
Proof.
  intros Hok st. unfold runJobs.
  destruct (files_loop host globalOptions hasProgress (length files)
              (length files * length presets) presets
              (imap (fun i file => (i, file)) files)) with (b := emptyBatch)
              (st := st)
    as (b & st' & Hrun & Hinv & Hc & Hf).
  - intros i file preset Hin Hp.
    apply elem_of_lookup_imap in Hin as (j & f & [= -> ->] & Hj). eauto.
  - apply batch_inv_empty.
  - exists b, st'. split; [exact Hrun|]. split; [exact Hinv|].
    rewrite length_imap in Hc. split; [exact Hc|].
    intros Hne. rewrite Hf. destruct files; [done|]. simpl. set_solver.
Qed.

End BatchTheorems.

(** C7.  When every job of a batch of F files and P presets succeeds, the
    progress callback is called exactly F*P times, the i-th call with
    [(i, F*P)]; the archive holds F*P artifacts, each inside the folder of a
    preset; and a batch of 2 files and 2 presets whose sanitized names differ
    gives 4 progress calls, 4 artifacts and 2 folders. *)
Theorem processBatch_progress_and_layout
    (host : Pipeline.Host) (files : list Pipeline.File)
    (presets : list Pipeline.Preset) (globalOptions : Pipeline.GlobalOptions) :
  (forall i file preset,
      files !! i = Some file -> preset ∈ presets ->
      resolves
        (Pipeline.transformSingle host file preset globalOptions i
           (length files))) ->
  forall st, exists b st',
    let total := (length files * length presets)%nat in
    Pipeline.runJobs host files presets globalOptions true st
      = Resolved (b, st') /\
    Pipeline.processBatch host files presets globalOptions true st
      = lift (Pipeline.generateAsync host (Pipeline.zip b)) st' /\
    Pipeline.progress b = (fun i => (i, total)) <$> seq 1 total /\
    length (Pipeline.progress b) = total /\
    (forall k, (k < total)%nat ->
               Pipeline.progress b !! k = Some (S k, total)) /\
    size (Pipeline.zip_files (Pipeline.zip b)) = total /\
    (forall folder fname,
        is_Some (Pipeline.zip_files (Pipeline.zip b) !! (folder, fname)) ->
        folder ∈ Pipeline.zip_folders (Pipeline.zip b)) /\
    (files <> [] ->
     Pipeline.zip_folders (Pipeline.zip b)
       = list_to_set (Pipeline.folderNameOf <$> presets)) /\
    (forall p1 p2,
        length files = 2%nat -> presets = [p1; p2] ->
        Pipeline.folderNameOf p1 <> Pipeline.folderNameOf p2 ->
        length (Pipeline.progress b) = 4%nat /\
        size (Pipeline.zip_files (Pipeline.zip b)) = 4%nat /\
        size (Pipeline.zip_folders (Pipeline.zip b)) = 2%nat).
Proof.
  intros Hok st.
  destruct (runJobs_all_succeed host files presets globalOptions true Hok st)
    as (b & st' & Hrun & (Hsize & Hfiles & Hprog) & Hc & Hfold).
  exists b, st'. cbv zeta. rewrite Hc in Hsize, Hprog.
  assert (Hlen : length (Pipeline.progress b)
                 = (length files * length presets)%nat).
  { by rewrite Hprog, length_fmap, length_seq. }
  split; [exact Hrun|].
  split; [unfold Pipeline.processBatch, bind; by rewrite Hrun|].
  split; [exact Hprog|]. split; [exact Hlen|].
  split.
  { intros k Hk. rewrite Hprog, list_lookup_fmap, lookup_seq_lt by done.
    reflexivity. }
  split; [exact Hsize|].
  split; [intros folder fname Hs; by destruct (Hfiles folder fname Hs)|].
  split; [exact Hfold|].
  intros p1 p2 Hf -> Hne. rewrite Hf in *.
  split; [exact Hlen|]. split; [exact Hsize|].
  rewrite Hfold by (intros ->; discriminate).
  rewrite !fmap_cons, fmap_nil, !list_to_set_cons, list_to_set_nil.
  rewrite size_union by set_solver.
  rewrite union_empty_r_L, !size_singleton. reflexivity.
Qed.

(** ** A job that rejects rejects the batch *)

Section RejectFacts.

Import Pipeline.

Lemma foldM_app {A S} (f : S -> A -> M S) l1 l2 s st :
  foldM f (l1 ++ l2) s st = bind (foldM f l1 s) (foldM f l2) st.
Proof.
  revert s st. induction l1 as [|a l1 IH]; intros s st; simpl; [done|].
  unfold bind in *. destruct (f s a st) as [[s1 st1]|e]; [apply IH|done].
Qed.

Lemma foldM_rejects {A S} (f : S -> A -> M S) l a :
  a ∈ l ->
  (forall s st, exists e, f s a st = Rejected e) ->
  forall s st, exists e, foldM f l s st = Rejected e.
Proof.
  intros Hin Hbad. induction l as [|a' l IH]; intros s st.
  - by apply elem_of_nil in Hin.
  - simpl. unfold bind.
    apply elem_of_cons in Hin as [<-|Hin].
    + destruct (Hbad s st) as [e ->]. eauto.
    + destruct (f s a' st) as [[s1 st1]|e]; [by apply IH|eauto].
Qed.

Context (host : Host) (globalOptions : GlobalOptions).

Lemma loadImageWithMetadata_rejects file e1 e st :
  createImageBitmap host (file_bytes file) true = Rejected e1 ->
  createImageBitmap host (file_bytes file) false = Rejected e ->
  loadImageWithMetadata host file st = Rejected e.
Proof.
  intros H1 H2. unfold loadImageWithMetadata, bind, lift.
  rewrite H1, H2. done.
Qed.

Lemma transformSingle_decode_rejects file preset e1 e i n st :
  createImageBitmap host (file_bytes file) true = Rejected e1 ->
  createImageBitmap host (file_bytes file) false = Rejected e ->
  transformSingle host file preset globalOptions i n st = Rejected e.
Proof.
  intros H1 H2. unfold transformSingle. unfold bind at 1.
  by rewrite (loadImageWithMetadata_rejects file e1 e st H1 H2).
Qed.

Lemma presets_loop_decode_rejects hasProgress nfiles total file presets
    e1 e i b st :
  createImageBitmap host (file_bytes file) true = Rejected e1 ->
  createImageBitmap host (file_bytes file) false = Rejected e ->
  presets <> [] ->
  foldM (job host globalOptions hasProgress nfiles total i file) presets b st
    = Rejected e.
Proof.
  intros H1 H2 Hne. destruct presets as [|preset presets]; [done|].
  simpl. unfold bind at 1. unfold job at 1. unfold bind at 1.
  by rewrite (transformSingle_decode_rejects file preset e1 e i nfiles st
                H1 H2).
Qed.

End RejectFacts.

(** C1, as the code has it.  A decode failure on a source file (both calls
    of [createImageBitmap] reject) makes every job of that file reject with
    the decoder's second exception; [processBatch] has no handler around a
    job, so the batch rejects and no archive is produced; and when the jobs
    of the files before it succeed the batch rejects with that very
    exception. *)
Theorem processBatch_decode_failure_rejects
    (host : Pipeline.Host) (pre post : list Pipeline.File)
    (bad : Pipeline.File) (presets : list Pipeline.Preset)
    (globalOptions : Pipeline.GlobalOptions) (hasProgress : bool)
    (e1 e : JsError) :
  Pipeline.createImageBitmap host (Pipeline.file_bytes bad) true
    = Rejected e1 ->
  Pipeline.createImageBitmap host (Pipeline.file_bytes bad) false
    = Rejected e ->
  presets <> [] ->
  let files := pre ++ bad :: post in
  (forall preset i n st,
      Pipeline.transformSingle host bad preset globalOptions i n st
        = Rejected e) /\
  (forall st, exists e',
      Pipeline.processBatch host files presets globalOptions hasProgress st
        = Rejected e') /\
  ((forall i file preset,
       pre !! i = Some file -> preset ∈ presets ->
       resolves
         (Pipeline.transformSingle host file preset globalOptions i
            (length files))) ->
   forall st,
     Pipeline.processBatch host files presets globalOptions hasProgress st
       = Rejected e).
Proof.
  intros H1 H2 Hne files.
  split; [intros; by eapply transformSingle_decode_rejects|].
  split.
  - intros st. unfold Pipeline.processBatch, bind, Pipeline.runJobs.
    edestruct (foldM_rejects
      (fun b '(i, file) =>
         Pipeline.foldM
           (Pipeline.job host globalOptions hasProgress (length files)
              (length files * length presets) i file) presets b)
      (imap (fun i file => (i, file)) files) (length pre, bad)) as [e' ->].
    + apply elem_of_lookup_imap. exists (length pre), bad. split; [done|].
      unfold files. by rewrite list_lookup_middle.
    + intros b st'. exists e.
      by eapply presets_loop_decode_rejects.
    + eauto.
  - intros Hok st. unfold Pipeline.processBatch, Pipeline.runJobs.
    unfold bind at 1. unfold files at 3. rewrite imap_app, foldM_app.
    unfold bind at 1.
    destruct (files_loop host globalOptions hasProgress (length files)
                (length files * length presets) presets
                (imap (fun i file => (i, file)) pre)) with
      (b := Pipeline.emptyBatch) (st := st)
      as (b1 & st1 & -> & _).
    + intros i file preset Hin Hp.
      apply elem_of_lookup_imap in Hin as (j & f & [= -> ->] & Hj). eauto.
    + apply batch_inv_empty.
    + rewrite imap_cons. simpl. unfold bind at 1.
      by rewrite (presets_loop_decode_rejects host globalOptions hasProgress
                    _ _ bad presets e1 e _ b1 st1 H1 H2 Hne).
Qed.

(** C1 as stated fails: in a batch of an undecodable file and a good one,
    the good file's job succeeds on its own, yet the batch rejects with the
    decoder's exception and produces no archive. *)
Lemma processBatch_decode_failure_counterexample :
  Pipeline.createImageBitmap Demo.host (Pipeline.file_bytes Demo.bad) true
    = Rejected (Error "The source image could not be decoded.") /\
  Pipeline.createImageBitmap Demo.host (Pipeline.file_bytes Demo.bad) false
    = Rejected (Error "The source image could not be decoded.") /\
  (exists r st',
      Pipeline.transformSingle Demo.host Demo.good Demo.web Demo.options
        1%nat 2%nat 0%nat = Resolved (r, st')) /\
  Pipeline.processBatch Demo.host [Demo.bad; Demo.good] [Demo.web]
    Demo.options true 0%nat
    = Rejected (Error "The source image could not be decoded.") /\
  ~ (exists archive st',
        Pipeline.processBatch Demo.host [Demo.bad; Demo.good] [Demo.web]
          Demo.options true 0%nat = Resolved (archive, st')).
Proof.
  split; [reflexivity|]. split; [reflexivity|].
  split; [eexists; eexists; vm_compute; reflexivity|].
  assert (H : Pipeline.processBatch Demo.host [Demo.bad; Demo.good] [Demo.web]
                Demo.options true 0%nat
              = Rejected (Error "The source image could not be decoded."))
    by (vm_compute; reflexivity).
  split; [exact H|]. rewrite H. intros (archive & st' & [=]).
Qed.

Lemma demo_jobs_resolve (files : list Pipeline.File) n :
  forall i file preset,
    files !! i = Some file -> file ∈ [Demo.good; Demo.other] ->
    preset ∈ [Demo.web; Demo.print] ->
    resolves
      (Pipeline.transformSingle Demo.host file preset Demo.options i n).
Proof.
  intros i file preset _ Hf Hp st.
  apply list_elem_of_In in Hf, Hp. simpl in Hf, Hp.
  destruct Hf as [<-|[<-|[]]]; destruct Hp as [<-|[<-|[]]];
    eexists; eexists; vm_compute; reflexivity.
Qed.

Lemma processBatch_decode_failure_rejects_witness :
  (forall preset i n st,
      Pipeline.transformSingle Demo.host Demo.bad preset Demo.options i n st
        = Rejected (Error "The source image could not be decoded.")) /\
  forall st,
    Pipeline.processBatch Demo.host [Demo.good; Demo.bad; Demo.other]
      [Demo.web; Demo.print] Demo.options true st
      = Rejected (Error "The source image could not be decoded.").
Proof.
  pose proof (processBatch_decode_failure_rejects Demo.host [Demo.good]
                [Demo.other] Demo.bad [Demo.web; Demo.print] Demo.options true
                (Error "The source image could not be decoded.")
                (Error "The source image could not be decoded.")
                eq_refl eq_refl ltac:(discriminate)) as (Hjob & _ & Hbatch).
  split; [exact Hjob|].
  apply Hbatch. intros i file preset Hi Hp.
  apply (demo_jobs_resolve [Demo.good] _ i file preset Hi); [|exact Hp].
  destruct i; simpl in Hi; [|done]. injection Hi as <-. set_solver.
Defined.

Lemma processBatch_progress_and_layout_witness :
  exists b st',
    Pipeline.runJobs Demo.host [Demo.good; Demo.other] [Demo.web; Demo.print]
      Demo.options true 0%nat = Resolved (b, st') /\
    Pipeline.progress b
      = [(1, 4); (2, 4); (3, 4); (4, 4)]%nat /\
    size (Pipeline.zip_files (Pipeline.zip b)) = 4%nat /\
    size (Pipeline.zip_folders (Pipeline.zip b)) = 2%nat.
Proof.
  destruct (processBatch_progress_and_layout Demo.host
              [Demo.good; Demo.other] [Demo.web; Demo.print] Demo.options)
    with (st := 0%nat)
    as (b & st' & Hrun & _ & Hprog & _ & _ & _ & _ & _ & H22).
  - intros i file preset Hi Hp.
    apply (demo_jobs_resolve [Demo.good; Demo.other] _ i file preset Hi);
      [|exact Hp].
    apply list_elem_of_lookup. eauto.
  - exists b, st'. split; [exact Hrun|]. split; [exact Hprog|].
    destruct (H22 Demo.web Demo.print eq_refl eq_refl) as (_ & Hfiles & Hfold).
    + vm_compute. discriminate.
    + split; [exact Hfiles|exact Hfold].
Defined.

(** C8.  Asking [makeUniqueName] for a base that is already used returns
    the base with the smallest suffix -2, -3, ... that is free, and the set
    afterwards holds that name as well; starting from an empty folder, three
    requests for photo give photo, photo-2 and photo-3. *)
Theorem makeUniqueName_smallest_suffix
    (baseName : string) (usedNames : gset string) :
  baseName ∈ usedNames ->
  (exists k,
      (2 <= k)%N /\
      Utils.makeUniqueName baseName usedNames
        = Some (suffixed baseName k, {[suffixed baseName k]} ∪ usedNames) /\
      (suffixed baseName k ∉ usedNames) /\
      (forall j, (2 <= j < k)%N -> suffixed baseName j ∈ usedNames)) /\
  Utils.makeUniqueName "photo" ∅ = Some ("photo", {["photo"]}) /\
  Utils.makeUniqueName "photo" {["photo"]}
    = Some ("photo-2", {["photo-2"; "photo"]}) /\
  Utils.makeUniqueName "photo" {["photo-2"; "photo"]}
    = Some ("photo-3", {["photo-3"; "photo-2"; "photo"]}).
Proof.
  intros Hin. split.
  - destruct (makeUniqueName_total baseName usedNames)
      as (c & Hrun & Hfree & [[Hout _]|(_ & k & Hk & -> & Hsmall)]); [done|].
    exists k. done.
  - repeat split; vm_compute; reflexivity.
Qed.

Lemma makeUniqueName_smallest_suffix_witness :
  exists k,
    (2 <= k)%N /\
    Utils.makeUniqueName "photo" {["photo"; "photo-2"; "photo-4"]}
      = Some (suffixed "photo" k,
              {[suffixed "photo" k]} ∪ {["photo"; "photo-2"; "photo-4"]}) /\
    (suffixed "photo" k
       ∉ ({["photo"; "photo-2"; "photo-4"]} : gset string)) /\
    (forall j, (2 <= j < k)%N ->
               suffixed "photo" j
                 ∈ ({["photo"; "photo-2"; "photo-4"]} : gset string)).
Proof.
  apply (makeUniqueName_smallest_suffix "photo"
           {["photo"; "photo-2"; "photo-4"]}).
  vm_compute. reflexivity.
Defined.

Lemma of_N_not_forbidden k :
  JsString.forallb not_forbidden (JsString.of_N k) = true.
Proof.
  unfold JsString.of_N.
  assert (H : forall d,
             JsString.forallb not_forbidden (NilEmpty.string_of_uint d) = true).
  { induction d; simpl; try done; by rewrite IHd. }
  destruct (N.to_uint k); try apply H. reflexivity.
Qed.

(** C10.  For every input string and the default cap of 120,
    [sanitizeFilename] returns a non-empty string of at most 120 characters
    none of which is one of the nine forbidden characters; so does every
    folder name of the archive, and every entry base name, which is a
    sanitized name or one with a numeric suffix, is non-empty and free of
    them too. *)
Theorem sanitizeFilename_safe (name : string) :
  let safe := Utils.sanitizeFilename name Utils.defaultMaxLength in
  safe <> EmptyString /\
  (String.length safe <= 120)%nat /\
  (forall c, In c forbidden_chars -> ~ In c (list_ascii_of_string safe)) /\
  (forall k c,
      suffixed safe k <> EmptyString /\
      (In c forbidden_chars ->
       ~ In c (list_ascii_of_string (suffixed safe k)))) /\
  (forall preset c,
      Pipeline.folderNameOf preset <> EmptyString /\
      (In c forbidden_chars ->
       ~ In c (list_ascii_of_string (Pipeline.folderNameOf preset)))).
Proof.
  assert (Hgen : forall s,
    let safe := Utils.sanitizeFilename s Utils.defaultMaxLength in
    safe <> EmptyString /\ (String.length safe <= 120)%nat /\
    forall c, In c forbidden_chars -> ~ In c (list_ascii_of_string safe)).
  { intros s.
    destruct (sanitizeFilename_general s Utils.defaultMaxLength)
      as (Hne & Hlen & Hok); [unfold Utils.defaultMaxLength; lia|].
    split; [exact Hne|]. split; [exact Hlen|].
    intros c Hc Hin. pose proof (forallb_In _ _ _ Hok Hin) as H.
    unfold not_forbidden in H. by rewrite (is_forbidden_chars c Hc) in H. }
  destruct (Hgen name) as (Hne & Hlen & Hok).
  split; [exact Hne|]. split; [exact Hlen|]. split; [exact Hok|].
  split.
  - intros k c. split; [unfold suffixed; by apply app_nonempty_r|].
    intros Hc Hin.
    destruct (sanitizeFilename_general name Utils.defaultMaxLength)
      as (_ & _ & Hall); [unfold Utils.defaultMaxLength; lia|].
    assert (Hs : JsString.forallb not_forbidden
                   (suffixed (Utils.sanitizeFilename name
                                Utils.defaultMaxLength) k) = true).
    { unfold suffixed. apply forallb_app; [exact Hall|].
      apply (forallb_app not_forbidden "-"); [reflexivity|].
      apply of_N_not_forbidden. }
    pose proof (forallb_In _ _ _ Hs Hin) as H.
    unfold not_forbidden in H. by rewrite (is_forbidden_chars c Hc) in H.
  - intros preset c. unfold Pipeline.folderNameOf.
    destruct (Hgen (default "preset"
                      (Pipeline.orS (Pipeline.name preset) (Some "preset"))))
      as (Hne' & _ & Hok').
    split; [exact Hne'|apply Hok'].
Qed.

(** ** computeDrawRect *)

Lemma js_round_shift n : Pipeline.js_round (inject_Z n) = n.
Proof.
  unfold Pipeline.js_round, Qfloor, Qplus, inject_Z. simpl.
  symmetry. apply Z.div_unique with (r := 1); lia.
Qed.

Lemma js_round_mono p q :
  (p <= q)%Q -> Pipeline.js_round p <= Pipeline.js_round q.
Proof.
  intros H. unfold Pipeline.js_round. apply Qfloor_resp_le.
  apply Qplus_le_l. exact H.
Qed.

Lemma js_round_le q n : (q <= inject_Z n)%Q -> Pipeline.js_round q <= n.
Proof. intros H%js_round_mono. by rewrite js_round_shift in H. Qed.

Lemma js_round_ge q n : (inject_Z n <= q)%Q -> n <= Pipeline.js_round q.
Proof. intros H%js_round_mono. by rewrite js_round_shift in H. Qed.

Lemma js_round_half d : Pipeline.js_round (inject_Z d / 2) = (d + 1) / 2.
Proof.
  unfold Pipeline.js_round, Qfloor, Qdiv, Qmult, Qplus, Qinv, inject_Z. simpl.
  change (Z.pos (1 * 2 * 2)) with (2 * 2). change (Z.pos (1 * 2)) with 2.
  replace (d * 1 * 2 + 1 * 2) with ((d + 1) * 2) by lia.
  rewrite Z.div_mul_cancel_r by lia. done.
Qed.

Section Ratios.

(** The four comparisons behind the two branches, for a source of
    [a] by [b] and a destination of [c] by [d]. *)
Variables a b c d : positive.

Let srcRatio : Q := (inject_Z (Zpos a) / inject_Z (Zpos b))%Q.
Let dstRatio : Q := (inject_Z (Zpos c) / inject_Z (Zpos d))%Q.

Lemma wide_height :
  (dstRatio < srcRatio)%Q ->
  (inject_Z (Zpos c) / srcRatio <= inject_Z (Zpos d))%Q.
Proof.
  unfold srcRatio, dstRatio, Qlt, Qle, Qdiv, Qmult, Qinv, inject_Z.
  simpl. nia.
Qed.

Lemma wide_width :
  (dstRatio < srcRatio)%Q ->
  (inject_Z (Zpos c) <= inject_Z (Zpos d) * srcRatio)%Q.
Proof.
  unfold srcRatio, dstRatio, Qlt, Qle, Qdiv, Qmult, Qinv, inject_Z.
  simpl. nia.
Qed.

Lemma tall_width :
  (srcRatio <= dstRatio)%Q ->
  (inject_Z (Zpos d) * srcRatio <= inject_Z (Zpos c))%Q.
Proof.
  unfold srcRatio, dstRatio, Qlt, Qle, Qdiv, Qmult, Qinv, inject_Z.
  simpl. nia.
Qed.

Lemma tall_height :
  (srcRatio <= dstRatio)%Q ->
  (inject_Z (Zpos d) <= inject_Z (Zpos c) / srcRatio)%Q.
Proof.
  unfold srcRatio, dstRatio, Qlt, Qle, Qdiv, Qmult, Qinv, inject_Z.
  simpl. nia.
Qed.

End Ratios.

Lemma centre_inside d : 0 <= d -> 0 <= (d + 1) / 2 <= d.
Proof.
  intros H. pose proof (Z.div_mod (d + 1) 2 ltac:(lia)).
  pose proof (Z.mod_pos_bound (d + 1) 2 ltac:(lia)). lia.
Qed.

Lemma centre_outside d : d <= 0 -> d <= (d + 1) / 2 <= 0.
Proof.
  intros H. pose proof (Z.div_mod (d + 1) 2 ltac:(lia)).
  pose proof (Z.mod_pos_bound (d + 1) 2 ltac:(lia)). lia.
Qed.


Ltac positive_sizes :=
  repeat match goal with
         | H : 0 < ?n |- _ => destruct n; [lia| |lia]; clear H
         end.

Lemma computeDrawRect_contain_inside (srcW srcH dstW dstH : Z) :
  0 < srcW -> 0 < srcH -> 0 < dstW -> 0 < dstH ->
  let r := Pipeline.computeDrawRect srcW srcH dstW dstH "contain" in
  0 <= Pipeline.x r /\ 0 <= Pipeline.y r /\
  Pipeline.x r + Pipeline.w r <= dstW /\
  Pipeline.y r + Pipeline.h r <= dstH.
Proof.
  intros H1 H2 H3 H4. positive_sizes.
  unfold Pipeline.computeDrawRect.
  cbn [String.eqb Ascii.eqb Bool.eqb orb andb].
  destruct (Qlt_le_dec _ _) as [Hwide|Htall];
    cbn [Pipeline.x Pipeline.y Pipeline.w Pipeline.h];
    rewrite !js_round_half, Z.sub_diag; change ((0 + 1) / 2) with 0.
  - pose proof (js_round_le _ _ (wide_height _ _ _ _ Hwide)) as Hh.
    match goal with
    | |- context [(?d + 1) / 2] =>
        pose proof (centre_inside d ltac:(lia))
    end. lia.
  - pose proof (js_round_le _ _ (tall_width _ _ _ _ Htall)) as Hw.
    match goal with
    | |- context [(?d + 1) / 2] =>
        pose proof (centre_inside d ltac:(lia))
    end. lia.
Qed.

Lemma computeDrawRect_cover_covers (srcW srcH dstW dstH : Z) :
  0 < srcW -> 0 < srcH -> 0 < dstW -> 0 < dstH ->
  let r := Pipeline.computeDrawRect srcW srcH dstW dstH "cover" in
  dstW <= Pipeline.w r /\ dstH <= Pipeline.h r /\
  Pipeline.x r <= 0 /\ Pipeline.y r <= 0 /\
  dstW <= Pipeline.x r + Pipeline.w r /\
  dstH <= Pipeline.y r + Pipeline.h r.
Proof.
  intros H1 H2 H3 H4. positive_sizes.
  unfold Pipeline.computeDrawRect.
  cbn [String.eqb Ascii.eqb Bool.eqb orb andb].
  destruct (Qlt_le_dec _ _) as [Hwide|Htall];
    cbn [Pipeline.x Pipeline.y Pipeline.w Pipeline.h];
    rewrite !js_round_half, Z.sub_diag; change ((0 + 1) / 2) with 0.
  - pose proof (js_round_ge _ _ (wide_width _ _ _ _ Hwide)) as Hw.
    match goal with
    | |- context [(?d + 1) / 2] =>
        pose proof (centre_outside d ltac:(lia))
    end. lia.
  - pose proof (js_round_ge _ _ (tall_height _ _ _ _ Htall)) as Hh.
    match goal with
    | |- context [(?d + 1) / 2] =>
        pose proof (centre_outside d ltac:(lia))
    end. lia.
Qed.

(** C3.  For positive source and destination sizes, the rectangle of fit
    [contain] lies inside the destination and the rectangle of fit [cover]
    covers it, the rounding of each step included. *)
Theorem computeDrawRect_contain_inside_cover_covers
    (srcW srcH dstW dstH : Z) :
  0 < srcW -> 0 < srcH -> 0 < dstW -> 0 < dstH ->
  (let r := Pipeline.computeDrawRect srcW srcH dstW dstH "contain" in
   0 <= Pipeline.x r /\ 0 <= Pipeline.y r /\
   Pipeline.x r + Pipeline.w r <= dstW /\
   Pipeline.y r + Pipeline.h r <= dstH) /\
  (let r := Pipeline.computeDrawRect srcW srcH dstW dstH "cover" in
   dstW <= Pipeline.w r /\ dstH <= Pipeline.h r /\
   Pipeline.x r <= 0 /\ Pipeline.y r <= 0 /\
   dstW <= Pipeline.x r + Pipeline.w r /\
   dstH <= Pipeline.y r + Pipeline.h r).
Proof.
  intros H1 H2 H3 H4. split.
  - by apply computeDrawRect_contain_inside.
  - by apply computeDrawRect_cover_covers.
Qed.

(** C5.  For positive sizes, fit [outside] computes the very rectangle of
    fit [cover]. *)
Theorem computeDrawRect_outside_is_cover (srcW srcH dstW dstH : Z) :
  0 < srcW -> 0 < srcH -> 0 < dstW -> 0 < dstH ->
  Pipeline.computeDrawRect srcW srcH dstW dstH "outside"
  = Pipeline.computeDrawRect srcW srcH dstW dstH "cover".
Proof. intros. reflexivity. Qed.


Lemma computeDrawRect_contain_inside_cover_covers_witness :
  (let r := Pipeline.computeDrawRect 1600 1200 800 800 "contain" in
   0 <= Pipeline.x r /\ 0 <= Pipeline.y r /\
   Pipeline.x r + Pipeline.w r <= 800 /\ Pipeline.y r + Pipeline.h r <= 800) /\
  (let r := Pipeline.computeDrawRect 1600 1200 800 800 "cover" in
   800 <= Pipeline.w r /\ 800 <= Pipeline.h r /\
   Pipeline.x r <= 0 /\ Pipeline.y r <= 0 /\
   800 <= Pipeline.x r + Pipeline.w r /\ 800 <= Pipeline.y r + Pipeline.h r).
Proof.
  apply (computeDrawRect_contain_inside_cover_covers 1600 1200 800 800); lia.
Defined.

Lemma computeDrawRect_outside_is_cover_witness :
  Pipeline.computeDrawRect 3 7 5 5 "outside"
  = Pipeline.computeDrawRect 3 7 5 5 "cover".
Proof. apply (computeDrawRect_outside_is_cover 3 7 5 5); lia. Defined.

(** ** Orientation, compositing and metadata *)

Section PipelineTheorems.

Import Pipeline.

(** C6.  For an orientation code from 1 to 8, or none, and a host whose
    2D context is available, [correctOrientationToCanvas] returns a canvas
    created by this very call (its identity is the counter's value, which
    moves on by one), of size H by W for the codes 5 to 8 and W by H
    otherwise, onto which the bitmap is drawn last; for code 1 and for no
    code the bitmap is copied onto it without any transform. *)
Theorem correctOrientationToCanvas_dimensions
    (host : Host) (imageBitmap : ImageBitmap) (orientation : option Z)
    (st : nat) :
  (orientation = None \/ exists o, orientation = Some o /\ 1 <= o <= 8) ->
  (forall cw ch, getContext2d host cw ch true = true) ->
  exists canvas,
    correctOrientationToCanvas host imageBitmap orientation st
      = Resolved (canvas, S st) /\
    canvas_id canvas = st /\
    canvas_width canvas
      = (if swaps orientation then bm_height imageBitmap
         else bm_width imageBitmap) /\
    canvas_height canvas
      = (if swaps orientation then bm_width imageBitmap
         else bm_height imageBitmap) /\
    List.last (canvas_ops canvas) (ClearRect 0 0 0 0)
      = DrawImage (FromBitmap imageBitmap) 0 0 None /\
    (orientation = None \/ orientation = Some 1 ->
     canvas_ops canvas = [DrawImage (FromBitmap imageBitmap) 0 0 None]).
Proof.
  intros Horient Hctx.
  assert (Hcases : orientation ∈ [None; Some 1; Some 2; Some 3; Some 4;
                                  Some 5; Some 6; Some 7; Some 8]).
  { destruct Horient as [->|(o & -> & Ho)]; [set_solver|].
    assert (o = 1 \/ o = 2 \/ o = 3 \/ o = 4 \/
            o = 5 \/ o = 6 \/ o = 7 \/ o = 8)
      as Hc by lia.
    repeat (destruct Hc as [->|Hc]; [set_solver|]). subst. set_solver. }
  apply list_elem_of_In in Hcases. simpl in Hcases.
  repeat (destruct Hcases as [<-|Hcases]);
    try (unfold correctOrientationToCanvas, bind, getCanvasContext; simpl;
         rewrite Hctx; eexists; split; [reflexivity|]; simpl;
         repeat split; try done; intros [|]; done).
  done.
Qed.

Lemma correctOrientationToCanvas_dimensions_witness :
  exists canvas,
    correctOrientationToCanvas Demo.host
      {| bm_width := 16; bm_height := 12 |} (Some 6) 0%nat
      = Resolved (canvas, 1%nat) /\
    canvas_width canvas = 12 /\ canvas_height canvas = 16.
Proof.
  destruct (correctOrientationToCanvas_dimensions Demo.host
              {| bm_width := 16; bm_height := 12 |} (Some 6) 0%nat)
    as (canvas & Hrun & _ & Hw & Hh & _).
  - right. exists 6. split; [reflexivity|lia].
  - reflexivity.
  - exists canvas. split; [exact Hrun|]. split; [exact Hw|exact Hh].
Defined.

Lemma reserialize_insert_fails host px zeroth dataUrl e :
  (forall exifBytes, piexif_insert px exifBytes dataUrl = Rejected e) ->
  exists e', reserialize host px zeroth dataUrl = Rejected e'.
Proof.
  intros H. unfold reserialize, rbind.
  destruct (piexif_dump px zeroth); [|eauto]. rewrite H. eauto.
Qed.

(** C9.  Both injectors always resolve.  Whenever the body of their [try]
    throws (piexif missing, [dump] or [insert] refusing the payload, [atob]
    failing, no media type in the data URL) they resolve with the payload
    they were given; in particular when [piexif.insert] cannot parse it.
    Hence [encode] resolves whenever [renderToBlob] does. *)
Theorem metadata_injection_best_effort (host : Host) (blob : Blob) (dpi : Z)
    (productName comment : option string) :
  (forall e, injectJpegDpi_try host blob dpi = Rejected e ->
             injectJpegDpiIfNeeded host blob dpi = Resolved blob) /\
  (forall e, injectJpegComment_try host blob productName comment = Rejected e ->
             injectJpegComment host blob productName comment = Resolved blob) /\
  (forall px e,
      piexif host = Some px ->
      (forall exifBytes,
          piexif_insert px exifBytes (readAsDataURL host blob) = Rejected e) ->
      injectJpegDpiIfNeeded host blob dpi = Resolved blob /\
      injectJpegComment host blob productName comment = Resolved blob) /\
  (exists b, injectJpegDpiIfNeeded host blob dpi = Resolved b) /\
  (exists b, injectJpegComment host blob productName comment = Resolved b) /\
  (forall canvas preset globalOptions st st',
      renderToBlob host canvas (format preset) (quality preset) st
        = Resolved (blob, st') ->
      exists b, encode host canvas preset globalOptions st = Resolved (b, st')).
Proof.
  assert (Hdpi : forall b d,
             exists b', injectJpegDpiIfNeeded host b d = Resolved b').
  { intros b d. unfold injectJpegDpiIfNeeded.
    destruct (d <=? 0); [eauto|].
    destruct (injectJpegDpi_try host b d); eauto. }
  assert (Hcom : forall b p c,
             exists b', injectJpegComment host b p c = Resolved b').
  { intros b p c. unfold injectJpegComment.
    destruct (injectJpegComment_try host b p c); eauto. }
  split; [|split; [|split; [|split; [|split]]]].
  - intros e He. unfold injectJpegDpiIfNeeded. rewrite He.
    by destruct (dpi <=? 0).
  - intros e He. unfold injectJpegComment. by rewrite He.
  - intros px e Hpx Hins. split.
    + unfold injectJpegDpiIfNeeded. destruct (dpi <=? 0); [done|].
      unfold injectJpegDpi_try. rewrite Hpx.
      edestruct reserialize_insert_fails as [e' ->]; [exact Hins|done].
    + unfold injectJpegComment, injectJpegComment_try. rewrite Hpx.
      edestruct reserialize_insert_fails as [e' ->]; [exact Hins|done].
  - apply Hdpi.
  - apply Hcom.
  - intros canvas preset go st st' Hr. unfold encode, bind. rewrite Hr.
    destruct (bool_decide (format preset = jpeg)); [|unfold ret; eauto].
    destruct (negb (jpegDpi go =? 0)).
    + destruct (Hdpi blob (jpegDpi go)) as [b1 ->]. simpl.
      destruct (truthyS (Pipeline.productName go)
                || truthyS (Pipeline.comment go)).
      * destruct (Hcom b1 (Pipeline.productName go) (Pipeline.comment go))
          as [b2 ->].
        simpl. eauto.
      * unfold ret. eauto.
    + unfold ret at 1.
      destruct (truthyS (Pipeline.productName go)
                || truthyS (Pipeline.comment go)).
      * destruct (Hcom blob (Pipeline.productName go) (Pipeline.comment go))
          as [b2 ->].
        simpl. eauto.
      * unfold ret. eauto.
Qed.

Lemma metadata_injection_best_effort_witness :
  injectJpegDpiIfNeeded Demo.host
    {| blob_bytes := "pixels"; blob_type := "image/jpeg" |} 300
    = Resolved {| blob_bytes := "pixels"; blob_type := "image/jpeg" |} /\
  injectJpegComment Demo.host
    {| blob_bytes := "pixels"; blob_type := "image/jpeg" |} (Some "Lamp") None
    = Resolved {| blob_bytes := "pixels"; blob_type := "image/jpeg" |}.
Proof.
  destruct (metadata_injection_best_effort Demo.host
              {| blob_bytes := "pixels"; blob_type := "image/jpeg" |} 300
              (Some "Lamp") None) as (Hdpi & Hcom & _).
  split.
  - apply (Hdpi (Error "Given data is not jpeg.")). reflexivity.
  - apply (Hcom (Error "Given data is not jpeg.")). reflexivity.
Defined.

Section CompositeShape.
Context (host : Host) (orientedCanvas : Canvas).
Context (preset : Preset) (globalOptions : GlobalOptions).

Let srcW := canvas_width orientedCanvas.
Let srcH := canvas_height orientedCanvas.

Lemma composite_resolved st canvas st' :
  composite host orientedCanvas preset globalOptions st
    = Resolved (canvas, st') ->
  let cw := canvas_width canvas in
  let ch := canvas_height canvas in
  let rect := drawRectOf preset srcW srcH cw ch in
  cw = canvas_dim (targetSize preset srcW srcH).1 /\
  ch = canvas_dim (targetSize preset srcW srcH).2 /\
  canvas_alpha canvas = useAlphaOf preset globalOptions /\
  canvas_id canvas = st /\
  exists rest,
    no_fill rest = true /\
    canvas_ops canvas =
      [ClearRect 0 0 cw ch; SetImageSmoothing true "high"]
      ++ (if paintsBackground preset globalOptions rect cw ch
          then [FillRect
                  (Utils.hexToRgba (resolvedBackground preset globalOptions) 1)
                  0 0 cw ch]
          else [])
      ++ DrawImage (FromCanvas (canvas_id orientedCanvas)) (x rect) (y rect)
           (Some (w rect, h rect)) :: rest.
Proof.
  cbv zeta. unfold composite. fold srcW srcH.
  destruct (targetSize preset srcW srcH) as [tw th].
  unfold bind, getCanvasContext.
  destruct (getContext2d host _ _ _); [|discriminate].
  cbn [call canvas_width canvas_height canvas_id canvas_alpha canvas_ops app].
  remember (paintsBackground preset globalOptions
              (drawRectOf preset srcW srcH (canvas_dim tw) (canvas_dim th))
              (canvas_dim tw) (canvas_dim th)) as pb eqn:Hpb.
  unfold ret, applySharpen.
  destruct pb; destruct (Qlt_le_dec 0 (sharpen preset));
    try destruct (Qle_bool _ 0);
    intros [= <- <-];
    cbn [call canvas_width canvas_height canvas_id canvas_alpha canvas_ops
           app fst snd];
    rewrite <- Hpb;
    (split; [done|]); (split; [done|]); (split; [done|]); (split; [done|]);
    eexists; (split; [|reflexivity]); reflexivity.
Qed.

End CompositeShape.

(** C4.  In every job whose destination canvas is obtained: for the jpeg
    format the whole destination is filled with the resolved background
    colour before the source is drawn; for an alpha-capable format with
    transparency preserved the canvas has an alpha channel, nothing is ever
    filled and every pixel is still cleared when the source is drawn; and
    fit [cover] with both sizes given leaves no margins. *)
Theorem composite_background_policy (host : Host)
    (orientedCanvas : Canvas) (preset : Preset)
    (globalOptions : GlobalOptions) (st st' : nat) (canvas : Canvas) :
  composite host orientedCanvas preset globalOptions st
    = Resolved (canvas, st') ->
  let cw := canvas_width canvas in
  let ch := canvas_height canvas in
  let rect :=
    drawRectOf preset (canvas_width orientedCanvas)
      (canvas_height orientedCanvas) cw ch in
  let draw :=
    DrawImage (FromCanvas (canvas_id orientedCanvas)) (x rect) (y rect)
      (Some (w rect, h rect)) in
  let bg := Utils.hexToRgba (resolvedBackground preset globalOptions) 1 in
  (format preset = jpeg ->
   (exists rest,
       canvas_ops canvas =
         [ClearRect 0 0 cw ch; SetImageSmoothing true "high";
          FillRect bg 0 0 cw ch; draw] ++ rest) /\
   (forall px py, 0 <= px < cw -> 0 <= py < ch ->
                  paint_before_draw (canvas_ops canvas) Cleared px py
                  = Filled bg)) /\
  (format preset <> jpeg ->
   not_false (preserveTransparency globalOptions) = true ->
   canvas_alpha canvas = true /\
   (exists rest,
       canvas_ops canvas =
         [ClearRect 0 0 cw ch; SetImageSmoothing true "high"; draw] ++ rest) /\
   no_fill (canvas_ops canvas) = true /\
   (forall px py,
       paint_before_draw (canvas_ops canvas) Cleared px py = Cleared)) /\
  (forall pw ph,
      fit preset = "cover" ->
      width preset = Some pw -> height preset = Some ph ->
      0 < pw -> 0 < ph ->
      0 < canvas_width orientedCanvas -> 0 < canvas_height orientedCanvas ->
      leavesMarginsOf rect cw ch = false).
Proof.
  intros Hrun.
  destruct (composite_resolved host orientedCanvas preset globalOptions
              st canvas st' Hrun)
    as (Hcw & Hch & Halpha & _ & rest & Hrest & Hops).
  cbv zeta. split; [|split].
  - intros Hjpeg. revert Hops. unfold paintsBackground, useAlphaOf.
    rewrite Hjpeg. cbn [bool_decide decide_rel negb andb orb app]. 
    rewrite bool_decide_eq_true_2 by done.
    cbn [negb andb orb app]. intros Hops.
    split; [by exists rest|].
    intros px py Hx Hy. rewrite Hops. cbn [paint_before_draw app].
    unfold in_rect.
    replace (0 <=? px) with true by (symmetry; apply Z.leb_le; lia).
    replace (px <? 0 + canvas_width canvas) with true
      by (symmetry; apply Z.ltb_lt; lia).
    replace (0 <=? py) with true by (symmetry; apply Z.leb_le; lia).
    replace (py <? 0 + canvas_height canvas) with true
      by (symmetry; apply Z.ltb_lt; lia).
    reflexivity.
  - intros Hfmt Hkeep. revert Hops Halpha. unfold paintsBackground, useAlphaOf.
    rewrite bool_decide_eq_false_2 by done. rewrite Hkeep.
    rewrite (bool_decide_eq_false_2
               (preserveTransparency globalOptions = Some false))
      by (intros E; rewrite E in Hkeep; discriminate).
    cbn [negb andb orb app]. intros Hops Halpha.
    split; [exact Halpha|]. split; [by exists rest|].
    rewrite Hops. split.
    + unfold no_fill in *. cbn [forallb is_fill negb andb]. exact Hrest.
    + intros px py. cbn [paint_before_draw]. by destruct (in_rect _ _ _ _ _ _).
  - intros pw ph Hfit Hw Hh Hpw Hph Hsw Hsh.
    assert (Htarget : targetSize preset (canvas_width orientedCanvas)
                        (canvas_height orientedCanvas) = (Some pw, Some ph)).
    { unfold targetSize. rewrite Hw, Hh. unfold truthyZ.
      replace (pw =? 0) with false by (symmetry; apply Z.eqb_neq; lia).
      replace (ph =? 0) with false by (symmetry; apply Z.eqb_neq; lia).
      cbn [negb andb]. by destruct (not_false _). }
    rewrite Htarget in Hcw, Hch. cbn in Hcw, Hch.
    rewrite Hcw, Hch. unfold drawRectOf, singleDimOf. rewrite Hw, Hh, Hfit.
    unfold truthyZ.
    replace (pw =? 0) with false by (symmetry; apply Z.eqb_neq; lia).
    replace (ph =? 0) with false by (symmetry; apply Z.eqb_neq; lia).
    cbn [negb andb orb].
    pose proof (computeDrawRect_cover_covers _ _ pw ph Hsw Hsh Hpw Hph)
      as (H1 & H2 & H3 & H4 & _).
    unfold leavesMarginsOf.
    rewrite !orb_false_iff. repeat split; apply Z.ltb_ge; lia.
Qed.

Lemma composite_background_policy_witness :
  exists canvas st',
    composite Demo.host Demo.oriented Demo.print Demo.options 1%nat
      = Resolved (canvas, st') /\
    (forall px py,
        0 <= px < canvas_width canvas -> 0 <= py < canvas_height canvas ->
        paint_before_draw (canvas_ops canvas) Cleared px py
        = Filled (16, 32, 48, 1)) /\
    leavesMarginsOf
      (drawRectOf Demo.print 16 12 (canvas_width canvas)
         (canvas_height canvas))
      (canvas_width canvas) (canvas_height canvas) = false.
Proof.
  destruct (composite Demo.host Demo.oriented Demo.print Demo.options 1%nat)
    as [[canvas st']|e] eqn:E; [|vm_compute in E; discriminate].
  exists canvas, st'. split; [reflexivity|].
  destruct (composite_background_policy Demo.host Demo.oriented Demo.print
              Demo.options 1%nat st' canvas E) as (Hjpeg & _ & Hcover).
  split.
  - apply (Hjpeg eq_refl).
  - apply (Hcover 4 4); first [reflexivity | vm_compute; reflexivity].
Defined.

(** ** applySharpen *)

Lemma fold_left_lookup_other {A} (f : list Z -> A -> list Z) l out (j : nat) :
  (forall a out', a ∈ l -> f out' a !! j = out' !! j) ->
  fold_left f l out !! j = out !! j.
Proof.
  revert out. induction l as [|a l IH]; intros out H; simpl; [done|].
  rewrite IH by (intros; apply H; by right). apply H. by left.
Qed.

Lemma fold_left_length {A} (f : list Z -> A -> list Z) l out :
  (forall a out', length (f out' a) = length out') ->
  length (fold_left f l out) = length out.
Proof.
  intros H. revert out. induction l as [|a l IH]; intros out; simpl; [done|].
  by rewrite IH, H.
Qed.

Lemma index_inj width x y c x' y' c' :
  0 <= x < width -> 0 <= x' < width -> 0 <= y -> 0 <= y' ->
  0 <= c <= 3 -> 0 <= c' <= 3 ->
  index width x y c = index width x' y' c' -> x = x' /\ y = y' /\ c = c'.
Proof.
  unfold index. intros Hx Hx' Hy Hy' Hc Hc' H.
  apply Z2Nat.inj in H; [|nia|nia].
  assert (y * width + x = y' * width + x') as H1 by lia.
  assert (y = y') by nia. subst. lia.
Qed.

Lemma fold_left_lookup_written {A} (f : list Z -> A -> list Z) l a out
    (j : nat) v :
  a ∈ l -> NoDup l ->
  (forall b out', length (f out' b) = length out') ->
  (forall out', length out' = length out -> f out' a !! j = Some v) ->
  (forall b out', b ∈ l -> b <> a -> f out' b !! j = out' !! j) ->
  fold_left f l out !! j = Some v.
Proof.
  intros Hin Hnd Hlen Hw Ho.
  apply list_elem_of_split in Hin as (l1 & l2 & ->).
  apply NoDup_app in Hnd as (_ & Hl1 & [Hl2 _]%NoDup_cons).
  rewrite fold_left_app. simpl.
  rewrite fold_left_lookup_other.
  - apply Hw. by apply fold_left_length.
  - intros b out' Hb. apply Ho; [set_solver|]. by intros ->.
Qed.

Section Sharpen.
Context (src : list Z) (width height : Z) (intensity : Q).

Lemma sharpen_pixel_length out x y :
  length (sharpen_pixel src width intensity out x y) = length out.
Proof.
  unfold sharpen_pixel. rewrite length_insert.
  apply fold_left_length. intros. apply length_insert.
Qed.

Lemma sharpen_pixel_other out x y (j : nat) :
  (forall c, 0 <= c <= 3 -> index width x y c <> j) ->
  sharpen_pixel src width intensity out x y !! j = out !! j.
Proof.
  intros H. unfold sharpen_pixel.
  rewrite list_lookup_insert_ne by (apply H; lia).
  apply fold_left_lookup_other. intros c out' Hc%elem_of_seqZ.
  apply list_lookup_insert_ne. apply H. lia.
Qed.

Lemma sharpen_pixel_alpha out x y :
  (index width x y 3 < length out)%nat ->
  sharpen_pixel src width intensity out x y !! index width x y 3
  = Some (get src width x y 3).
Proof.
  intros H. unfold sharpen_pixel. apply list_lookup_insert_eq.
  rewrite fold_left_length; [done|]. intros. apply length_insert.
Qed.

Lemma sharpen_row_length out y :
  length (sharpen_row src width intensity out y) = length out.
Proof.
  unfold sharpen_row. apply fold_left_length. intros.
  apply sharpen_pixel_length.
Qed.

Lemma sharpen_row_other out y (j : nat) :
  (forall x c, 1 <= x <= width - 2 -> 0 <= c <= 3 -> index width x y c <> j) ->
  sharpen_row src width intensity out y !! j = out !! j.
Proof.
  intros H. unfold sharpen_row. apply fold_left_lookup_other.
  intros x out' Hx%elem_of_seqZ. apply sharpen_pixel_other.
  intros c Hc. apply H; lia.
Qed.

Lemma sharpen_data_length :
  length (sharpen_data width height intensity src) = length src.
Proof.
  unfold sharpen_data. rewrite fold_left_length; [apply length_replicate|].
  intros. apply sharpen_row_length.
Qed.

Lemma sharpen_data_other (j : nat) :
  (forall x y c, 1 <= x <= width - 2 -> 1 <= y <= height - 2 -> 0 <= c <= 3 ->
                 index width x y c <> j) ->
  sharpen_data width height intensity src !! j
  = replicate (length src) 0 !! j.
Proof.
  intros H. unfold sharpen_data. apply fold_left_lookup_other.
  intros y out' Hy%elem_of_seqZ. apply sharpen_row_other.
  intros x c Hx Hc. apply H; lia.
Qed.

Lemma sharpen_data_border px py c :
  length src = Z.to_nat (width * height * 4) ->
  0 <= px < width -> 0 <= py < height -> 0 <= c <= 3 ->
  on_border width height px py ->
  sharpen_data width height intensity src !! index width px py c = Some 0.
Proof.
  intros Hlen Hx Hy Hc Hb. rewrite sharpen_data_other.
  - apply lookup_replicate_2. rewrite Hlen. unfold index. nia.
  - intros x y c' Hx' Hy' Hc' Heq.
    apply index_inj in Heq as (-> & -> & _); try lia.
    unfold on_border in Hb. lia.
Qed.

Lemma sharpen_row_alpha out x y :
  length out = length src ->
  length src = Z.to_nat (width * height * 4) ->
  1 <= x <= width - 2 -> 1 <= y <= height - 2 ->
  sharpen_row src width intensity out y !! index width x y 3
  = Some (get src width x y 3).
Proof.
  intros Hout Hlen Hx Hy. unfold sharpen_row.
  apply fold_left_lookup_written with (a := x).
  - apply elem_of_seqZ. lia.
  - apply NoDup_seqZ.
  - intros. apply sharpen_pixel_length.
  - intros out' Hl. apply sharpen_pixel_alpha.
    rewrite Hl, Hout, Hlen. unfold index. nia.
  - intros x' out' Hx'%elem_of_seqZ Hne. apply sharpen_pixel_other.
    intros c Hc Heq. apply index_inj in Heq as (? & _); lia.
Qed.

Lemma sharpen_data_interior_alpha x y :
  length src = Z.to_nat (width * height * 4) ->
  1 <= x <= width - 2 -> 1 <= y <= height - 2 ->
  sharpen_data width height intensity src !! index width x y 3
  = src !! index width x y 3.
Proof.
  intros Hlen Hx Hy.
  assert (Hin : (index width x y 3 < length src)%nat)
    by (rewrite Hlen; unfold index; nia).
  destruct (lookup_lt_is_Some_2 _ _ Hin) as [v Hv].
  rewrite Hv. unfold sharpen_data.
  rewrite fold_left_lookup_written with (a := y) (v := get src width x y 3).
  - unfold get. by rewrite nth_lookup, Hv.
  - apply elem_of_seqZ. lia.
  - apply NoDup_seqZ.
  - intros. apply sharpen_row_length.
  - intros out' Hl. apply sharpen_row_alpha; try done.
    by rewrite Hl, length_replicate.
  - intros y' out' Hy'%elem_of_seqZ Hne. apply sharpen_row_other.
    intros x' c Hx' Hc Heq. apply index_inj in Heq as (_ & ? & _); lia.
Qed.

End Sharpen.


(** C2, as the code has it.  For every intensity in (0,1] and every raster
    read back with [width * height * 4] bytes, [applySharpen] writes back a
    buffer in which all four channels of every border pixel are 0, whatever
    they were; only the alpha of the interior pixels is the source's. *)
Theorem applySharpen_zeroes_border (host : Host) (ctx : Canvas)
    (width height : Z) (intensity : Q) :
  (0 < intensity)%Q -> (intensity <= 1)%Q ->
  0 < width -> 0 < height ->
  let src := getImageData host ctx 0 0 width height in
  length src = Z.to_nat (width * height * 4) ->
  exists data,
    canvas_ops (applySharpen host ctx width height intensity)
      = canvas_ops ctx ++ [PutImageData data 0 0] /\
    length data = length src /\
    (forall px py c,
        0 <= px < width -> 0 <= py < height -> 0 <= c <= 3 ->
        on_border width height px py ->
        data !! index width px py c = Some 0) /\
    (forall px py,
        1 <= px <= width - 2 -> 1 <= py <= height - 2 ->
        data !! index width px py 3 = src !! index width px py 3).
Proof.
  intros Hpos _ Hw Hh src Hlen.
  exists (sharpen_data width height intensity src).
  split; [|split; [|split]].
  - unfold applySharpen.
    destruct (Qle_bool intensity 0) eqn:E; [|reflexivity].
    apply Qle_bool_iff in E. by apply Qlt_not_le in Hpos.
  - apply sharpen_data_length.
  - intros px py c Hx Hy Hc Hb. by apply sharpen_data_border.
  - intros px py Hx Hy. by apply sharpen_data_interior_alpha.
Qed.

(** The failing input of C2: an opaque 3 by 3 raster, intensity 1.  Only
    the centre pixel survives; the eight border pixels become transparent
    black. *)
Example sharpen_data_opaque_3x3 :
  sharpen_data 3 3 1 (concat (replicate 9 [10; 20; 30; 255]))
  = replicate 16 0 ++ [10; 20; 30; 255] ++ replicate 16 0.
Proof. vm_compute. reflexivity. Qed.

Lemma applySharpen_zeroes_border_witness :
  exists data,
    canvas_ops (applySharpen Demo.host Demo.oriented 3 3 1)
      = [PutImageData data 0 0] /\
    getImageData Demo.host Demo.oriented 0 0 3 3 !! 3%nat = Some 200 /\
    data !! 3%nat = Some 0.
Proof.
  destruct (applySharpen_zeroes_border Demo.host Demo.oriented 3 3 1)
    as (data & Hops & _ & Hborder & _);
    [reflexivity|discriminate|lia|lia|reflexivity|].
  exists data. split; [exact Hops|]. split; [reflexivity|].
  apply (Hborder 0 0 3); [lia|lia|lia|by left].
Defined.

End PipelineTheorems.


(** ** Sample runs *)

Example replaceAll_patterns :
  JsString.replaceAll "{name}" "a$&b$$c" "x{name}y{name}z"
  = "xa{name}b$cya{name}b$cz".
Proof. reflexivity. Qed.

Example inferOutputName_pattern :
  Utils.inferOutputName "photo.jpg" 3
    {| Utils.np_name := Some "web"; Utils.np_width := 800;
       Utils.np_height := 600; Utils.np_format := "jpeg";
       Utils.np_namingPattern :=
         Some "{index}-{name}_{preset}_{width}x{height}";
       Utils.np_productName := None |}
  = "3-photo_web_800x600".
Proof. vm_compute. reflexivity. Qed.

Example computeDrawRect_contain_1600x1200 :
  Pipeline.computeDrawRect 1600 1200 800 800 "contain"
  = {| Pipeline.x := 0; Pipeline.y := 100;
       Pipeline.w := 800; Pipeline.h := 600 |}.
Proof. vm_compute. reflexivity. Qed.

Example transformSingle_demo :
  Pipeline.transformSingle Demo.host Demo.good Demo.print Demo.options
    0%nat 2%nat 0%nat
  = Resolved ({| Pipeline.blob_bytes := "pixels";
                 Pipeline.blob_type := "image/jpeg" |},
              "photo_print.jpg", 2%nat).
Proof. vm_compute. reflexivity. Qed.

(** * Further properties of the code *)

(** ** sanitizeFilename and the reserved device names *)

Lemma reserved_unfold s :
  Utils.reserved s = reservedShape (JsString.map JsString.upcase s).
Proof. reflexivity. Qed.

Ltac split_bits H :=
  repeat match type of H with
         | context [if ?b then _ else _] =>
             is_var b; destruct b; try discriminate H
         end.

Lemma reservedShape_facts u :
  reservedShape u = true ->
  (String.length u <= 4)%nat /\ JsString.forallb is_upper_or_digit u = true.
Proof.
  intros H.
  destruct u as [|[] [|[] [|[] [|[] [|c5 r]]]]]; simpl in H;
    try discriminate H; split_bits H; try discriminate H;
    (split; [simpl; lia|]); try reflexivity.
  all: repeat match goal with b : bool |- _ => destruct b end;
    first [reflexivity | vm_compute in H; discriminate H].
Qed.

Lemma forallb_map p f s :
  JsString.forallb p (JsString.map f s)
  = JsString.forallb (fun c => p (f c)) s.
Proof. induction s as [|c r IH]; simpl; [done|]. by rewrite IH. Qed.

Lemma map_length f s : String.length (JsString.map f s) = String.length s.
Proof. induction s as [|c r IH]; simpl; [done|]. by rewrite IH. Qed.

Lemma reserved_length s :
  Utils.reserved s = true -> (String.length s <= 4)%nat.
Proof.
  rewrite reserved_unfold. intros [H _]%reservedShape_facts.
  by rewrite map_length in H.
Qed.

Lemma forallb_app_inv p s t :
  JsString.forallb p (s +:+ t) = true -> JsString.forallb p t = true.
Proof.
  induction s as [|c r IH]; simpl; [done|].
  intros [_ H]%andb_true_iff. auto.
Qed.

Lemma reserved_underscore s : Utils.reserved (s +:+ "_") = false.
Proof.
  destruct (Utils.reserved (s +:+ "_")) eqn:E; [|done].
  rewrite reserved_unfold in E. apply reservedShape_facts in E as [_ E].
  rewrite forallb_map in E. apply forallb_app_inv in E. discriminate E.
Qed.

Lemma take_all n s : (String.length s <= n)%nat -> JsString.take n s = s.
Proof.
  revert s. induction n as [|n IH]; intros [|c r]; simpl; try done; try lia.
  intros H. rewrite IH; [done|lia].
Qed.

Lemma take_length_exact n s :
  (n <= String.length s)%nat -> String.length (JsString.take n s) = n.
Proof.
  revert s. induction n as [|n IH]; intros [|c r]; simpl; try done; try lia.
  intros H. rewrite IH; [done|lia].
Qed.

Lemma sanitizeFilename_not_reserved name maxLength :
  (5 <= maxLength)%nat ->
  Utils.reserved (Utils.sanitizeFilename name maxLength) = false.
Proof.
  intros Hmax. unfold Utils.sanitizeFilename.
  set (s4 := if JsString.is_empty _ then _ else _).
  destruct (Utils.reserved s4) eqn:Er.
  - pose proof (reserved_length _ Er) as Hl.
    assert (Hl5 : (String.length (s4 +:+ "_") <= 5)%nat).
    { rewrite append_length. simpl. lia. }
    replace (maxLength <? String.length (s4 +:+ "_"))%nat with false
      by (symmetry; apply Nat.ltb_ge; lia).
    apply reserved_underscore.
  - destruct (maxLength <? String.length s4)%nat eqn:El; [|exact Er].
    apply Nat.ltb_lt in El.
    destruct (Utils.reserved (JsString.take maxLength s4)) eqn:Et; [|done].
    apply reserved_length in Et. rewrite take_length_exact in Et; lia.
Qed.

(** X1.  With a length cap of at least 5, and so with the default cap of
    120, the name [sanitizeFilename] returns is never one of the reserved
    device names CON, PRN, AUX, NUL, COM1-9, LPT1-9, in any letter case:
    the underscore the code appends survives the cut, and a cut name is too
    long to be one.  Nor is any name [makeUniqueName] derives from it by
    appending a counter. *)
Theorem sanitizeFilename_never_reserved (name : string) (maxLength : nat) :
  (5 <= maxLength)%nat ->
  let safe := Utils.sanitizeFilename name maxLength in
  Utils.reserved safe = false /\
  forall k, Utils.reserved (suffixed safe k) = false.
Proof.
  intros Hmax safe. split; [by apply sanitizeFilename_not_reserved|].
  intros k. destruct (Utils.reserved (suffixed safe k)) eqn:E; [|done].
  rewrite reserved_unfold in E. apply reservedShape_facts in E as [_ E].
  rewrite forallb_map in E. unfold suffixed in E.
  apply forallb_app_inv in E. discriminate E.
Qed.

Lemma sanitizeFilename_never_reserved_witness :
  Utils.reserved "Com7" = true /\
  Utils.sanitizeFilename "Com7" 120 = "Com7_" /\
  Utils.reserved (Utils.sanitizeFilename "Com7" 120) = false.
Proof.
  split; [reflexivity|]. split; [reflexivity|].
  apply (sanitizeFilename_never_reserved "Com7" 120). lia.
Defined.

Lemma replace_forbidden_id s :
  JsString.forallb not_forbidden s = true -> Utils.replace_forbidden s = s.
Proof.
  unfold Utils.replace_forbidden, not_forbidden.
  induction s as [|c r IH]; simpl; [done|].
  intros [Hc Hr]%andb_true_iff. rewrite IH by done.
  by destruct (Utils.is_forbidden c).
Qed.

Lemma collapse_spaces_id b s :
  single_spaced b s = true -> Utils.collapse_spaces b s = s.
Proof.
  revert b. induction s as [|c r IH]; intros b; simpl; [done|].
  destruct (Utils.is_space c).
  - intros [[Hc Hb]%andb_true_iff Hr]%andb_true_iff.
    apply Ascii.eqb_eq in Hc as ->. destruct b; [done|].
    by rewrite IH.
  - intros Hr. by rewrite IH.
Qed.

Lemma drop_while_end_id p s l :
  last_char s = Some l -> p l = false -> JsString.drop_while_end p s = s.
Proof.
  induction s as [|c r IH]; simpl; [done|].
  destruct (last_char r) as [l'|] eqn:E.
  - intros [= ->] Hp. rewrite IH by done. destruct r; [done|done].
  - intros [= ->] Hp. destruct r; [|simpl in E; by destruct (last_char r)].
    simpl. by rewrite Hp.
Qed.

Lemma is_space_or_dot_false c :
  Utils.is_space_or_dot c = false -> Utils.is_space c = false.
Proof. unfold Utils.is_space_or_dot. by intros [H _]%orb_false_iff. Qed.

(** X2.  [sanitizeFilename] returns unchanged every name that is already
    safe: no forbidden character, single plain spaces only, neither end a
    space or a dot, not a reserved device name, and within the cap. *)
Theorem sanitizeFilename_keeps_clean_names (name : string)
    (maxLength : nat) :
  clean name maxLength = true ->
  Utils.sanitizeFilename name maxLength = name.
Proof.
  unfold clean. intros H.
  apply andb_true_iff in H as [H Hl%Nat.leb_le].
  apply andb_true_iff in H as [H Hr%negb_true_iff].
  apply andb_true_iff in H as [H He].
  apply andb_true_iff in H as [Hf Hs].
  unfold Utils.sanitizeFilename.
  rewrite replace_forbidden_id, collapse_spaces_id by done.
  unfold ends_ok in He. destruct name as [|c r]; [done|].
  destruct (last_char (String c r)) as [l|] eqn:El; [|done].
  apply andb_true_iff in He as [Hc%negb_true_iff Hlast%negb_true_iff].
  unfold Utils.trim, Utils.strip_dots_spaces.
  change (JsString.drop_while Utils.is_space (String c r))
    with (if Utils.is_space c then JsString.drop_while Utils.is_space r
          else String c r).
  rewrite (is_space_or_dot_false c Hc).
  rewrite (drop_while_end_id Utils.is_space _ l El
             (is_space_or_dot_false l Hlast)).
  change (JsString.drop_while Utils.is_space_or_dot (String c r))
    with (if Utils.is_space_or_dot c
          then JsString.drop_while Utils.is_space_or_dot r else String c r).
  rewrite Hc, (drop_while_end_id _ _ l El Hlast).
  cbn [JsString.is_empty]. rewrite Hr.
  replace (maxLength <? String.length (String c r))%nat with false
    by (symmetry; apply Nat.ltb_ge; lia).
  reflexivity.
Qed.

Lemma sanitizeFilename_keeps_clean_names_witness :
  Utils.sanitizeFilename "Summer 2024 - beach.v2" 120
  = "Summer 2024 - beach.v2".
Proof.
  apply (sanitizeFilename_keeps_clean_names "Summer 2024 - beach.v2" 120).
  reflexivity.
Defined.

(** ** Splitting a name at its last dot *)

Lemma split_dotfree_single e :
  dotfree e -> JsString.split "."%char e = [e].
Proof.
  unfold dotfree, not_dot. induction e as [|c r IH]; simpl; [done|].
  intros [Hc Hr]%andb_true_iff. apply negb_true_iff in Hc. rewrite Hc.
  by rewrite IH.
Qed.

Lemma split_app_dot b e :
  dotfree e ->
  JsString.split "."%char (b +:+ String "."%char e)
  = JsString.split "."%char b ++ [e].
Proof.
  intros He. induction b as [|c r IH]; simpl.
  - by rewrite split_dotfree_single.
  - rewrite IH. destruct (Ascii.eqb c "."%char); [done|].
    pose proof (split_ne_nil "."%char r).
    by destruct (JsString.split "."%char r).
Qed.

Lemma join_split s : JsString.join "." (JsString.split "."%char s) = s.
Proof.
  induction s as [|c r IH]; simpl; [done|].
  pose proof (split_ne_nil "."%char r) as Hne.
  destruct (Ascii.eqb c "."%char) eqn:E.
  - apply Ascii.eqb_eq in E as ->.
    destruct (JsString.split "."%char r) as [|p ps]; [done|].
    change (JsString.join "." (EmptyString :: p :: ps))
      with (String "."%char (JsString.join "." (p :: ps))).
    by rewrite IH.
  - destruct (JsString.split "."%char r) as [|p ps]; [done|].
    destruct ps as [|q qs].
    + simpl in *. by rewrite IH.
    + change (JsString.join "." (String c p :: q :: qs))
        with (String c (JsString.join "." (p :: q :: qs))).
      by rewrite IH.
Qed.

Lemma last_snoc {A} (l : list A) x d : List.last (l ++ [x]) d = x.
Proof.
  induction l as [|a l IH]; [done|]. simpl.
  destruct (l ++ [x]) eqn:E; [by destruct l|done].
Qed.

Lemma splitOutputName_joined base ext :
  dotfree ext ->
  Pipeline.splitOutputName (base +:+ "." +:+ ext)
  = (if JsString.is_empty base then "image" else base, ext).
Proof.
  intros He. unfold Pipeline.splitOutputName.
  change (base +:+ "." +:+ ext) with (base +:+ String "."%char ext).
  rewrite split_app_dot, last_snoc, removelast_last, join_split by done.
  reflexivity.
Qed.

(** X3.  The three lines of [processBatch] that take an output name apart
    undo the way [transformSingle] builds it: for a base with any number of
    dots and an extension without one, [base.ext] splits back into that
    base and that extension, and an empty base becomes [image]. *)
Theorem splitOutputName_inverts_join (base ext : string) :
  dotfree ext ->
  Pipeline.splitOutputName (base +:+ "." +:+ ext)
  = (if JsString.is_empty base then "image" else base, ext).
Proof. apply splitOutputName_joined. Qed.

Lemma splitOutputName_inverts_join_witness :
  Pipeline.splitOutputName "plan.v2.final.jpg" = ("plan.v2.final", "jpg") /\
  Pipeline.splitOutputName ".png" = ("image", "png").
Proof.
  split.
  - apply (splitOutputName_inverts_join "plan.v2.final" "jpg"). reflexivity.
  - apply (splitOutputName_inverts_join "" "png"). reflexivity.
Defined.

(** X4.  The expression that strips the extension in [inferOutputName] and
    [getSafeBaseName] removes exactly the last dot and what follows it: a
    name [base.ext] whose extension has no dot and is not empty becomes
    [base], a name that ends in a dot is kept whole, and so is a name
    without any dot. *)
Theorem strip_extension_last_dot (base ext : string) :
  dotfree ext ->
  Utils.strip_extension (base +:+ "." +:+ ext)
    = (if JsString.is_empty ext then base +:+ "." else base) /\
  Utils.strip_extension ext = ext.
Proof.
  intros He. split.
  - unfold Utils.strip_extension.
    change (base +:+ "." +:+ ext) with (base +:+ String "."%char ext).
    rewrite split_app_dot by done.
    pose proof (split_ne_nil "."%char base) as Hne.
    destruct (JsString.split "."%char base) as [|p ps] eqn:E; [done|].
    change ((p :: ps) ++ [ext]) with (p :: (ps ++ [ext])).
    destruct (ps ++ [ext]) as [|q qs] eqn:E2; [by destruct ps|].
    rewrite <- E2. change (p :: (ps ++ [ext])) with ((p :: ps) ++ [ext]).
    rewrite last_snoc, removelast_last, <- E, join_split.
    by destruct ext.
  - unfold Utils.strip_extension. by rewrite split_dotfree_single.
Qed.

Lemma strip_extension_last_dot_witness :
  Utils.strip_extension "archive.tar.gz" = "archive.tar" /\
  Utils.strip_extension "gz" = "gz".
Proof.
  apply (strip_extension_last_dot "archive.tar" "gz"). reflexivity.
Defined.

(** ** inferOutputName with the default pattern *)

Lemma substitution_plain t m b a :
  plain t = true -> JsString.substitution t m b a = t.
Proof.
  unfold plain. induction t as [|c r IH]; simpl; [done|].
  intros [Hc Hr]%andb_true_iff.
  unfold plain_char in Hc. apply andb_true_iff in Hc as [_ Hd%negb_true_iff].
  rewrite Hd. by rewrite IH.
Qed.

Lemma append_empty_r s : s +:+ EmptyString = s.
Proof.
  induction s as [|c r IH]; [done|].
  change (String c (r +:+ EmptyString) = String c r). by rewrite IH.
Qed.

Lemma append_assoc s t u : (s +:+ t) +:+ u = s +:+ (t +:+ u).
Proof.
  induction s as [|c r IH]; [done|].
  change (String c ((r +:+ t) +:+ u) = String c (r +:+ (t +:+ u))).
  by rewrite IH.
Qed.

Lemma prefix_app p s : String.prefix p (p +:+ s) = true.
Proof.
  induction p as [|c r IH]; simpl; [by destruct s|].
  destruct (ascii_dec c c); [exact IH|done].
Qed.

Lemma plain_app s t :
  plain s = true -> plain t = true -> plain (s +:+ t) = true.
Proof. apply forallb_app. Qed.

Section Scan.

(** A pattern that starts with a brace, as the seven placeholders do. *)
Context (pat' repl whole : string).

Let pat := String "{"%char pat'.

Lemma scan_plain_app a rest pos :
  plain a = true ->
  JsString.replaceAll_scan pat repl whole pos 0 (a +:+ rest)
  = a +:+ JsString.replaceAll_scan pat repl whole
            (pos + String.length a) 0 rest.
Proof.
  unfold plain. revert pos. induction a as [|c r IH]; intros pos.
  - intros _. simpl. by rewrite Nat.add_0_r.
  - simpl JsString.forallb. intros [Hc Hr]%andb_true_iff.
    unfold plain_char in Hc.
    apply andb_true_iff in Hc as [Hb%negb_true_iff _].
    destruct c as [b0 b1 b2 b3 b4 b5 b6 b7].
    assert (Hp : String.prefix pat
                   (String (Ascii b0 b1 b2 b3 b4 b5 b6 b7) (r +:+ rest))
                 = false).
    { unfold pat. simpl. simpl in Hb.
      destruct b0, b1, b2, b3, b4, b5, b6, b7;
        try reflexivity; discriminate Hb. }
    change (String (Ascii b0 b1 b2 b3 b4 b5 b6 b7) r +:+ rest)
      with (String (Ascii b0 b1 b2 b3 b4 b5 b6 b7) (r +:+ rest)).
    cbn [JsString.replaceAll_scan]. rewrite Hp, IH by done.
    cbn [String.length]. rewrite Nat.add_succ_r. reflexivity.
Qed.

Lemma scan_plain a pos :
  plain a = true -> JsString.replaceAll_scan pat repl whole pos 0 a = a.
Proof.
  intros Ha. pose proof (scan_plain_app a EmptyString pos Ha) as H.
  rewrite append_empty_r in H. rewrite H. simpl. apply append_empty_r.
Qed.

Lemma scan_skip a rest pos :
  JsString.replaceAll_scan pat repl whole pos (String.length a) (a +:+ rest)
  = JsString.replaceAll_scan pat repl whole (pos + String.length a) 0 rest.
Proof.
  revert pos. induction a as [|c r IH]; intros pos; simpl.
  - by rewrite Nat.add_0_r.
  - rewrite IH. by rewrite Nat.add_succ_r.
Qed.

Lemma scan_match rest pos :
  plain repl = true ->
  JsString.replaceAll_scan pat repl whole pos 0 (pat +:+ rest)
  = repl +:+ JsString.replaceAll_scan pat repl whole
               (pos + String.length pat) 0 rest.
Proof.
  intros Hr. unfold pat at 2. simpl. fold pat.
  pose proof (prefix_app pat rest) as Hp. unfold pat at 2 in Hp. simpl in Hp.
  rewrite Hp. rewrite substitution_plain by done.
  rewrite Nat.sub_0_r. rewrite scan_skip. f_equal. f_equal. lia.
Qed.

End Scan.

(** X5.  With no naming pattern set, [inferOutputName] returns the input
    name without its extension, an underscore and the preset's name
    ([preset] when it has none), whenever neither contains a brace or a
    dollar: nothing in them is taken for a placeholder or a replacement
    pattern, and the index plays no part. *)
Theorem inferOutputName_default_pattern (inputName : string) (index : nat)
    (preset : Utils.NamingPreset) :
  let base :=
    Utils.strip_extension (Utils.or_else (Some inputName) "image") in
  let presetName := Utils.or_else (Utils.np_name preset) "preset" in
  Utils.or_else (Utils.np_namingPattern preset) "{name}_{preset}"
    = "{name}_{preset}" ->
  plain base = true -> plain presetName = true ->
  Utils.inferOutputName inputName index preset = base +:+ "_" +:+ presetName.
Proof.
  intros base presetName Hpat Hb Hn. unfold Utils.inferOutputName.
  rewrite Hpat. fold base presetName.
  assert (H1 : JsString.replaceAll "{name}" base "{name}_{preset}"
               = base +:+ "_{preset}").
  { unfold JsString.replaceAll.
    rewrite (scan_match "name}" base _ "_{preset}" 0%nat Hb).
    reflexivity. }
  rewrite H1.
  assert (H2 : forall r,
             JsString.replaceAll "{index}" r (base +:+ "_{preset}")
             = base +:+ "_{preset}").
  { intros r. unfold JsString.replaceAll.
    rewrite (scan_plain_app "index}" r _ base "_{preset}" 0%nat Hb).
    reflexivity. }
  rewrite H2.
  assert (H3 : JsString.replaceAll "{preset}" presetName
                 (base +:+ "_{preset}")
               = base +:+ "_" +:+ presetName).
  { unfold JsString.replaceAll.
    change (base +:+ "_{preset}") with (base +:+ ("_" +:+ "{preset}")) at 2.
    rewrite <- append_assoc.
    rewrite (scan_plain_app "preset}" presetName _ (base +:+ "_")
               "{preset}" 0%nat)
      by (apply plain_app; [exact Hb|reflexivity]).
    rewrite <- (append_empty_r "{preset}") at 3.
    rewrite (scan_match "preset}" presetName _ EmptyString _ Hn).
    simpl JsString.replaceAll_scan. rewrite append_empty_r.
    apply append_assoc. }
  rewrite H3.
  assert (Hplain : plain (base +:+ "_" +:+ presetName) = true).
  { apply plain_app; [exact Hb|].
    apply (plain_app "_"); [reflexivity|exact Hn]. }
  unfold JsString.replaceAll.
  rewrite (scan_plain "width}" _ _ _ 0%nat Hplain).
  rewrite (scan_plain "height}" _ _ _ 0%nat Hplain).
  rewrite (scan_plain "format}" _ _ _ 0%nat Hplain).
  rewrite (scan_plain "product}" _ _ _ 0%nat Hplain).
  reflexivity.
Qed.

Lemma inferOutputName_default_pattern_witness :
  Utils.inferOutputName "holiday.in.rome.jpeg" 7
    {| Utils.np_name := Some "web"; Utils.np_width := 800;
       Utils.np_height := 600; Utils.np_format := "png";
       Utils.np_namingPattern := None; Utils.np_productName := None |}
  = "holiday.in.rome_web".
Proof.
  apply (inferOutputName_default_pattern "holiday.in.rome.jpeg" 7
           {| Utils.np_name := Some "web"; Utils.np_width := 800;
              Utils.np_height := 600; Utils.np_format := "png";
              Utils.np_namingPattern := None;
              Utils.np_productName := None |});
    reflexivity.
Defined.

(** ** hexToRgba *)

Lemma hex_digit_range c v : Utils.hex_digit c = Some v -> 0 <= v <= 15.
Proof.
  unfold Utils.hex_digit.
  set (n := Z.of_nat (nat_of_ascii c)).
  destruct ((48 <=? n) && (n <=? 57)) eqn:E1.
  { apply andb_true_iff in E1 as [?%Z.leb_le ?%Z.leb_le].
    intros [= <-]. lia. }
  destruct ((97 <=? n) && (n <=? 102)) eqn:E2.
  { apply andb_true_iff in E2 as [?%Z.leb_le ?%Z.leb_le].
    intros [= <-]. lia. }
  destruct ((65 <=? n) && (n <=? 70)) eqn:E3; [|done].
  apply andb_true_iff in E3 as [?%Z.leb_le ?%Z.leb_le]. intros [= <-]. lia.
Qed.

Lemma hex_pair_range a b v : Utils.hex_pair a b = Some v -> 0 <= v <= 255.
Proof.
  unfold Utils.hex_pair.
  destruct (Utils.hex_digit a) as [x|] eqn:Ea; [|done].
  destruct (Utils.hex_digit b) as [y|] eqn:Eb; [|done].
  apply hex_digit_range in Ea, Eb. intros [= <-]. lia.
Qed.

Lemma hexToRgba_body hex alpha :
  Utils.hexToRgba hex alpha
  = hexBody (match hex with String "#" r => r | _ => hex end) alpha.
Proof. reflexivity. Qed.

Lemma hexBody_range body alpha :
  let '(r, g, b, a) := hexBody body alpha in
  0 <= r <= 255 /\ 0 <= g <= 255 /\ 0 <= b <= 255 /\ a = alpha.
Proof.
  unfold hexBody.
  destruct body as [|r1 [|r2 [|g1 [|g2 [|b1 [|b2 [|x y]]]]]]];
    try (repeat split; lia).
  destruct (Utils.hex_pair r1 r2) eqn:E1; [|repeat split; lia].
  destruct (Utils.hex_pair g1 g2) eqn:E2; [|repeat split; lia].
  destruct (Utils.hex_pair b1 b2) eqn:E3; [|repeat split; lia].
  apply hex_pair_range in E1, E2, E3. repeat split; lia.
Qed.

(** X6.  Whatever string it is given, a colour, a malformed one or none at
    all, [hexToRgba] returns three channels between 0 and 255 and the alpha
    it was passed: the style the pipeline fills with is always a valid
    colour. *)
Theorem hexToRgba_channels_in_range (hex : string) (alpha : Z) :
  let '(r, g, b, a) := Utils.hexToRgba hex alpha in
  0 <= r <= 255 /\ 0 <= g <= 255 /\ 0 <= b <= 255 /\ a = alpha.
Proof. rewrite hexToRgba_body. apply hexBody_range. Qed.

Lemma hex_digit_hexChar v :
  0 <= v <= 15 -> Utils.hex_digit (hexChar v) = Some v.
Proof.
  intros H.
  assert (v = 0 \/ v = 1 \/ v = 2 \/ v = 3 \/ v = 4 \/ v = 5 \/ v = 6 \/
          v = 7 \/ v = 8 \/ v = 9 \/ v = 10 \/ v = 11 \/ v = 12 \/
          v = 13 \/ v = 14 \/ v = 15) as Hc by lia.
  repeat (destruct Hc as [->|Hc]; [reflexivity|]). subst. reflexivity.
Qed.

Lemma hex_pair_hexByte v :
  0 <= v <= 255 ->
  Utils.hex_pair (hexChar (v / 16)) (hexChar (v mod 16)) = Some v.
Proof.
  intros H. unfold Utils.hex_pair.
  pose proof (Z.div_mod v 16 ltac:(lia)).
  pose proof (Z.mod_pos_bound v 16 ltac:(lia)).
  rewrite !hex_digit_hexChar by lia. f_equal. lia.
Qed.

Lemma hex_digit_upcase c :
  Utils.hex_digit (JsString.upcase c) = Utils.hex_digit c.
Proof.
  destruct c as [b0 b1 b2 b3 b4 b5 b6 b7].
  destruct b0, b1, b2, b3, b4, b5, b6, b7; reflexivity.
Qed.

Lemma hexToRgba_no_hash c r alpha :
  c <> "#"%char ->
  Utils.hexToRgba (String c r) alpha = hexBody (String c r) alpha.
Proof.
  intros Hne. rewrite hexToRgba_body.
  destruct c as [b0 b1 b2 b3 b4 b5 b6 b7].
  destruct b0, b1, b2, b3, b4, b5, b6, b7; try reflexivity. done.
Qed.

Lemma hexChar_not_hash v : 0 <= v <= 15 -> hexChar v <> "#"%char.
Proof.
  intros H E. pose proof (hex_digit_hexChar v H) as Hd.
  rewrite E in Hd. discriminate Hd.
Qed.

(** X7.  [hexToRgba] reads back every colour written as six hexadecimal
    digits: with the leading hash, without it, and in upper case, the
    channels returned are the ones that were written. *)
Theorem hexToRgba_reads_hex_colour (r g b alpha : Z) :
  0 <= r <= 255 -> 0 <= g <= 255 -> 0 <= b <= 255 ->
  Utils.hexToRgba (hexColor r g b) alpha = (r, g, b, alpha) /\
  Utils.hexToRgba (hexByte r +:+ hexByte g +:+ hexByte b) alpha
    = (r, g, b, alpha) /\
  Utils.hexToRgba (JsString.map JsString.upcase (hexColor r g b)) alpha
    = (r, g, b, alpha).
Proof.
  intros Hr Hg Hb.
  assert (Hbody : hexBody (hexByte r +:+ hexByte g +:+ hexByte b) alpha
                  = (r, g, b, alpha)).
  { unfold hexBody, hexByte. simpl. by rewrite !hex_pair_hexByte. }
  split; [exact Hbody|]. split.
  - rewrite <- Hbody. unfold hexByte at 1 4. lazy [String.append].
    apply hexToRgba_no_hash, hexChar_not_hash.
    split; [apply Z.div_pos; lia|].
    assert (r / 16 < 16); [apply Z.div_lt_upper_bound; lia|lia].
  - change (Utils.hexToRgba (JsString.map JsString.upcase (hexColor r g b))
              alpha)
      with (hexBody
              (JsString.map JsString.upcase
                 (hexByte r +:+ hexByte g +:+ hexByte b)) alpha).
    unfold hexByte. lazy [String.append JsString.map]. unfold hexBody.
    unfold Utils.hex_pair. rewrite !hex_digit_upcase.
    fold (Utils.hex_pair (hexChar (r / 16)) (hexChar (r mod 16))).
    fold (Utils.hex_pair (hexChar (g / 16)) (hexChar (g mod 16))).
    fold (Utils.hex_pair (hexChar (b / 16)) (hexChar (b mod 16))).
    by rewrite !hex_pair_hexByte.
Qed.

Lemma hexToRgba_reads_hex_colour_witness :
  hexColor 16 32 255 = "#1020ff" /\
  Utils.hexToRgba "#1020ff" 1 = (16, 32, 255, 1) /\
  Utils.hexToRgba "1020ff" 1 = (16, 32, 255, 1) /\
  Utils.hexToRgba "#1020FF" 1 = (16, 32, 255, 1).
Proof.
  split; [reflexivity|].
  apply (hexToRgba_reads_hex_colour 16 32 255 1); lia.
Defined.

(** ** makeUniqueName and clamp *)

(** X8.  Two requests to [makeUniqueName] in a row, against the set the
    first one has updated, always succeed and return two different names,
    neither of which was in the set before; the set grows by exactly two,
    and a base that is free is returned as it is. *)
Theorem makeUniqueName_twice_distinct (usedNames : gset string)
    (b1 b2 : string) :
  exists n1 n2,
    Utils.makeUniqueName b1 usedNames = Some (n1, {[n1]} ∪ usedNames) /\
    Utils.makeUniqueName b2 ({[n1]} ∪ usedNames)
      = Some (n2, {[n2]} ∪ ({[n1]} ∪ usedNames)) /\
    n1 <> n2 /\ (n1 ∉ usedNames) /\ (n2 ∉ usedNames) /\
    size ({[n2]} ∪ ({[n1]} ∪ usedNames)) = (size usedNames + 2)%nat /\
    ((b1 ∉ usedNames) -> n1 = b1).
Proof.
  destruct (makeUniqueName_total b1 usedNames) as (n1 & H1 & Hf1 & Hs1).
  destruct (makeUniqueName_total b2 ({[n1]} ∪ usedNames))
    as (n2 & H2 & Hf2 & _).
  exists n1, n2. split; [exact H1|]. split; [exact H2|].
  split; [set_solver|]. split; [done|]. split; [set_solver|].
  split.
  - rewrite !size_union by set_solver. rewrite !size_singleton. lia.
  - intros Hb. destruct Hs1 as [[_ ->]|[Hin _]]; done.
Qed.

(** X9.  For bounds in order, [clamp] returns a value between them: the
    value itself when it lies between the bounds, the lower bound when it is
    below and the upper bound when it is above. *)
Theorem clamp_between_bounds (value min max : Q) :
  (min <= max)%Q ->
  (min <= Utils.clamp value min max)%Q /\
  (Utils.clamp value min max <= max)%Q /\
  ((min <= value)%Q -> (value <= max)%Q ->
   (Utils.clamp value min max == value)%Q) /\
  ((value <= min)%Q -> (Utils.clamp value min max == min)%Q) /\
  ((max <= value)%Q -> (Utils.clamp value min max == max)%Q).
Proof.
  intros H. unfold Utils.clamp.
  split; [apply Q.le_max_l|].
  split; [apply Q.max_lub; [exact H|apply Q.le_min_l]|].
  split; [|split].
  - intros H1 H2. apply Qeq_trans with (Qmin max value).
    + apply Q.max_r. by apply Q.min_glb.
    + by apply Q.min_r.
  - intros H1. apply Q.max_l.
    apply Qle_trans with value; [apply Q.le_min_r|done].
  - intros H1. apply Qeq_trans with (Qmin max value).
    + apply Q.max_r. apply Q.min_glb; [done|].
      by apply Qle_trans with max.
    + by apply Q.min_l.
Qed.

Lemma clamp_between_bounds_witness :
  (Utils.clamp 9000 1 8000 == 8000)%Q /\ (Utils.clamp 0 1 8000 == 1)%Q.
Proof.
  destruct (clamp_between_bounds 9000 1 8000) as (_ & _ & _ & _ & Hup);
    [unfold Qle; simpl; lia|].
  destruct (clamp_between_bounds 0 1 8000) as (_ & _ & _ & Hlow & _);
    [unfold Qle; simpl; lia|].
  split; [apply Hup|apply Hlow]; unfold Qle; simpl; lia.
Defined.

Section PipelineExtras.

Import Pipeline.

(** ** computeDrawRect: aspect ratio and centring *)



Lemma js_round_Qeq p q : (p == q)%Q -> js_round p = js_round q.
Proof.
  intros H. unfold js_round. apply Qfloor_comp.
  by apply Qplus_comp.
Qed.

Lemma js_round_Z_eq q n : (q == inject_Z n)%Q -> js_round q = n.
Proof. intros H. rewrite (js_round_Qeq _ _ H). apply js_round_shift. Qed.

Section Scaled.

Variables a b c d : positive.



End Scaled.



(** X11.  In every fit mode, the unknown ones included, the rectangle is
    centred on the destination: its left and top margins are half of what
    the rectangle leaves free (or overflows by), rounded up when that is
    odd, so the two margins of a side differ by at most one pixel. *)
Theorem computeDrawRect_centred (srcW srcH dstW dstH : Z) (fit : string) :
  0 < srcW -> 0 < srcH -> 0 < dstW -> 0 < dstH ->
  let r := computeDrawRect srcW srcH dstW dstH fit in
  0 <= 2 * x r - (dstW - w r) <= 1 /\ 0 <= 2 * y r - (dstH - h r) <= 1.
Proof.
  intros _ _ _ _. cbv zeta. unfold computeDrawRect.
  destruct (String.eqb fit "stretch"); [cbn [x y w h]; lia|].
  destruct (if String.eqb fit "cover" then _ else _) as [w0 h0].
  cbn [x y w h]. rewrite !js_round_half.
  pose proof (Z.div_mod (dstW - w0 + 1) 2 ltac:(lia)).
  pose proof (Z.mod_pos_bound (dstW - w0 + 1) 2 ltac:(lia)).
  pose proof (Z.div_mod (dstH - h0 + 1) 2 ltac:(lia)).
  pose proof (Z.mod_pos_bound (dstH - h0 + 1) 2 ltac:(lia)).
  lia.
Qed.

Lemma computeDrawRect_centred_witness :
  computeDrawRect 1000 333 100 100 "cover"
    = {| x := -100; y := 0; w := 300; h := 100 |} /\
  0 <= 2 * x (computeDrawRect 1000 333 100 100 "contain") - (100 - 100) <= 1
  /\
  0 <= 2 * y (computeDrawRect 1000 333 100 100 "contain") - (100 - 33) <= 1.
Proof.
  split; [vm_compute; reflexivity|].
  apply (computeDrawRect_centred 1000 333 100 100 "contain"); lia.
Defined.

(** X12.  When source and destination have the same aspect ratio, every
    fit mode draws the source over the whole destination: the rectangle is
    the destination itself, with no margin and no overflow. *)
Theorem computeDrawRect_same_aspect_fills (srcW srcH dstW dstH : Z)
    (fit : string) :
  0 < srcW -> 0 < srcH -> 0 < dstW -> 0 < dstH ->
  srcW * dstH = srcH * dstW ->
  computeDrawRect srcW srcH dstW dstH fit = fullCanvas dstW dstH.
Proof.
  intros H1 H2 H3 H4 Heq. unfold fullCanvas.
  destruct srcW as [|a|]; try lia. destruct srcH as [|b|]; try lia.
  destruct dstW as [|c|]; try lia. destruct dstH as [|d|]; try lia.
  assert (Hh : js_round (inject_Z (Zpos c)
                         / (inject_Z (Zpos a) / inject_Z (Zpos b)))
               = Zpos d).
  { apply js_round_Z_eq. unfold Qeq, Qdiv, Qmult, Qinv, inject_Z.
    simpl. lia. }
  assert (Hw : js_round (inject_Z (Zpos d)
                         * (inject_Z (Zpos a) / inject_Z (Zpos b)))
               = Zpos c).
  { apply js_round_Z_eq. unfold Qeq, Qdiv, Qmult, Qinv, inject_Z.
    simpl. lia. }
  unfold computeDrawRect.
  destruct (String.eqb fit "stretch"); [reflexivity|].
  rewrite Hh, Hw.
  set (cmp := Qlt_le_dec (inject_Z (Z.pos c) / inject_Z (Z.pos d))
                (inject_Z (Z.pos a) / inject_Z (Z.pos b))).
  assert (Hpair : (if String.eqb fit "cover"
                   then if cmp then (Z.pos c, Z.pos d) else (Z.pos c, Z.pos d)
                   else if String.eqb fit "contain" || String.eqb fit "inside"
                   then if cmp then (Z.pos c, Z.pos d) else (Z.pos c, Z.pos d)
                   else if String.eqb fit "outside"
                   then if cmp then (Z.pos c, Z.pos d) else (Z.pos c, Z.pos d)
                   else (Z.pos c, Z.pos d)) = (Z.pos c, Z.pos d)).
  { repeat match goal with |- context [if ?b then _ else _] => destruct b end;
      reflexivity. }
  rewrite Hpair. rewrite !Z.sub_diag. reflexivity.
Qed.

Lemma computeDrawRect_same_aspect_fills_witness :
  computeDrawRect 1600 1200 400 300 "outside" = fullCanvas 400 300.
Proof.
  apply (computeDrawRect_same_aspect_fills 1600 1200 400 300 "outside"); lia.
Defined.

(** ** transformSingle: one dimension given *)



(** ** transformSingle: the background *)

Lemma paintsBackground_no_alpha preset globalOptions rect cw ch :
  paintsBackground preset globalOptions rect cw ch
  = negb (useAlphaOf preset globalOptions).
Proof.
  unfold paintsBackground, useAlphaOf.
  destruct (bool_decide (format preset = jpeg)); [reflexivity|].
  destruct (preserveTransparency globalOptions) as [[]|]; try reflexivity.
Qed.

(** X14.  The destination canvas keeps an alpha channel exactly when the
    format is not JPEG and transparency is not switched off, and the
    background is painted exactly when it does not: the margins of the
    rectangle play no part.  When it is painted, the fill covers every pixel
    of the canvas with the resolved background before the image is
    drawn. *)
Theorem composite_fills_iff_opaque (host : Host) (orientedCanvas : Canvas)
    (preset : Preset) (globalOptions : GlobalOptions) (st st' : nat)
    (canvas : Canvas) :
  composite host orientedCanvas preset globalOptions st
    = Resolved (canvas, st') ->
  canvas_alpha canvas
    = (negb (bool_decide (format preset = jpeg))
       && negb (bool_decide
                  (preserveTransparency globalOptions = Some false)))
  /\
  no_fill (canvas_ops canvas) = canvas_alpha canvas /\
  (canvas_alpha canvas = false ->
   forall px py,
     0 <= px < canvas_width canvas -> 0 <= py < canvas_height canvas ->
     paint_before_draw (canvas_ops canvas) Cleared px py
     = Filled (Utils.hexToRgba (resolvedBackground preset globalOptions) 1)).
Proof.
  intros Hrun.
  destruct (composite_resolved host orientedCanvas preset globalOptions
              st canvas st' Hrun)
    as (_ & _ & Halpha & _ & rest & Hrest & Hops).
  rewrite paintsBackground_no_alpha, <- Halpha in Hops.
  split.
  - rewrite Halpha. unfold useAlphaOf. f_equal.
    by destruct (preserveTransparency globalOptions) as [[]|].
  - rewrite Hops. destruct (canvas_alpha canvas); cbn [negb app].
    + split; [|done]. unfold no_fill in *.
      cbn [forallb is_fill negb andb]. exact Hrest.
    + split; [reflexivity|]. intros _ px py Hx Hy.
      cbn [paint_before_draw]. unfold in_rect.
      replace (0 <=? px) with true by (symmetry; apply Z.leb_le; lia).
      replace (px <? 0 + canvas_width canvas) with true
        by (symmetry; apply Z.ltb_lt; lia).
      replace (0 <=? py) with true by (symmetry; apply Z.leb_le; lia).
      replace (py <? 0 + canvas_height canvas) with true
        by (symmetry; apply Z.ltb_lt; lia).
      reflexivity.
Qed.

Lemma composite_fills_iff_opaque_witness :
  exists canvas st',
    composite Demo.host Demo.oriented Demo.web
      {| jpegDpi := 0; backgroundColor := Some "#336699";
         preserveTransparency := Some false; namingPattern := None;
         productName := None; comment := None |} 1%nat
      = Resolved (canvas, st') /\
    canvas_alpha canvas = false /\
    no_fill (canvas_ops canvas) = false /\
    paint_before_draw (canvas_ops canvas) Cleared 0 0
      = Filled (51, 102, 153, 1).
Proof.
  destruct (composite Demo.host Demo.oriented Demo.web
              {| jpegDpi := 0; backgroundColor := Some "#336699";
                 preserveTransparency := Some false; namingPattern := None;
                 productName := None; comment := None |} 1%nat)
    as [[canvas st']|e] eqn:E; [|vm_compute in E; discriminate].
  exists canvas, st'. split; [reflexivity|].
  destruct (composite_fills_iff_opaque _ _ _ _ _ _ _ E)
    as (Halpha & Hfill & Hpaint).
  cbn in Halpha. split; [exact Halpha|].
  split; [by rewrite Hfill|].
  assert (Hsize : canvas_width canvas = 8 /\ canvas_height canvas = 8).
  { vm_compute in E. injection E as <- _. by split. }
  destruct Hsize as [Hcw Hch].
  apply (Hpaint Halpha 0 0); lia.
Defined.

(** ** loadImageWithMetadata *)


(** ** correctOrientationToCanvas: where the bitmap lands *)

Lemma orientation_transform_other o cw ch :
  ~ (2 <= o <= 8) -> orientation_transform o cw ch = [].
Proof.
  intros H. destruct o as [|p|p]; try reflexivity.
  do 4 (try (destruct p as [p|p|]; try reflexivity; try lia)).
Qed.

Lemma misplacement_other o bw bh :
  ~ (2 <= o <= 8) -> misplacement (Some o) bw bh = (0, 0).
Proof.
  intros H. destruct o as [|p|p]; try reflexivity.
  do 4 (try (destruct p as [p|p|]; try reflexivity; try lia)).
Qed.

Lemma correctOrientationToCanvas_other (host : Host)
    (imageBitmap : ImageBitmap) (orientation : option Z) (st : nat) :
  (forall o, orientation = Some o -> ~ (2 <= o <= 8)) ->
  correctOrientationToCanvas host imageBitmap orientation st
  = bind (getCanvasContext host (bm_width imageBitmap)
            (bm_height imageBitmap) true)
      (fun canvas =>
         ret (call (DrawImage (FromBitmap imageBitmap) 0 0 None) canvas)) st.
Proof.
  intros H. unfold correctOrientationToCanvas.
  destruct (_ || _) eqn:E; [reflexivity|].
  destruct orientation as [o|]; [|done].
  specialize (H o eq_refl). cbv zeta. change (default 0 (Some o)) with o.
  assert (Hs : (5 <=? o) && (o <=? 8) = false).
  { apply andb_false_iff.
    destruct (Z.leb_spec 5 o); [right|by left]. apply Z.leb_gt. lia. }
  rewrite Hs, orientation_transform_other by done. reflexivity.
Qed.

Ltac run_orientation Hrun :=
  cbn in Hrun;
  match type of Hrun with
  | context [getContext2d ?h ?a ?b ?c] =>
      destruct (getContext2d h a b c); [|discriminate Hrun]
  end;
  injection Hrun as <- <-;
  cbn [misplacement bm_width bm_height canvas_width canvas_height canvas_ops
       fst snd];
  intros px py; unfold Ctm.lands; cbn;
  repeat match goal with
    | |- context [Ctm.rotation ?q] =>
        let v := eval vm_compute in (Ctm.rotation q) in
        change (Ctm.rotation q) with v
    end;
  cbn;
  cbv [Ctm.apply Ctm.mul Ctm.identity
       Ctm.a Ctm.b Ctm.c Ctm.d Ctm.e Ctm.f fst snd];
  (split; [intros (sx & sy & Hx & Hy & [= <- <-]); lia|]); intros [Hx Hy].

Ltac preimage sx sy :=
  exists sx, sy; repeat split; try lia; do 2 f_equal; lia.

(** X16.  Where the bitmap ends up on the canvas that
    [correctOrientationToCanvas] returns, under the transformation in force
    when it is drawn.  For an absent orientation and for every code but 6, 7
    and 8 the points of the bitmap cover exactly the canvas.  For 6, 7 and 8
    the translations use the swapped sizes, and the bitmap covers the canvas
    shifted by the difference of the bitmap's width and height: it is in
    place only when the bitmap is square. *)
Theorem correctOrientationToCanvas_lands (host : Host)
    (imageBitmap : ImageBitmap) (orientation : option Z) (st st' : nat)
    (canvas : Canvas) :
  correctOrientationToCanvas host imageBitmap orientation st
    = Resolved (canvas, st') ->
  let bw := bm_width imageBitmap in
  let bh := bm_height imageBitmap in
  forall px py,
    (exists sx sy,
        0 <= sx <= bw /\ 0 <= sy <= bh /\
        Ctm.lands (canvas_ops canvas) sx sy = Some (px, py))
    <->
    ((misplacement orientation bw bh).1 <= px
       <= canvas_width canvas + (misplacement orientation bw bh).1 /\
     (misplacement orientation bw bh).2 <= py
       <= canvas_height canvas + (misplacement orientation bw bh).2).
Proof.
  intros Hrun bw bh. subst bw bh.
  destruct imageBitmap as [bw bh]. cbn [bm_width bm_height].
  assert (Hcase : (forall o, orientation = Some o -> ~ (2 <= o <= 8)) \/
                  exists o, orientation = Some o /\ 2 <= o <= 8).
  { destruct orientation as [o|]; [|by left].
    destruct (decide (2 <= o <= 8)); [right; eauto|left].
    by intros o' [= <-]. }
  destruct Hcase as [Hother|(o & -> & Ho)].
  - rewrite correctOrientationToCanvas_other in Hrun by done.
    assert (Hm : misplacement orientation bw bh = (0, 0)).
    { destruct orientation as [o|]; [|done].
      apply misplacement_other. by apply Hother. }
    rewrite Hm. clear Hm Hother.
    unfold bind, getCanvasContext, ret in Hrun.
    run_orientation Hrun. preimage px py.
  - assert (Hc : o = 2 \/ o = 3 \/ o = 4 \/
                 o = 5 \/ o = 6 \/ o = 7 \/ o = 8) by lia.
    unfold correctOrientationToCanvas, bind, getCanvasContext, ret in Hrun.
    repeat (destruct Hc as [-> | Hc]); try subst o; run_orientation Hrun.
    + preimage (bw - px) py.
    + preimage (bw - px) (bh - py).
    + preimage px (bh - py).
    + preimage py px.
    + preimage py (bw - px).
    + preimage (bh - py) (bw - px).
    + preimage (bh - py) px.
Qed.

Lemma correctOrientationToCanvas_lands_witness :
  exists canvas,
    correctOrientationToCanvas Demo.host
      {| bm_width := 16; bm_height := 12 |} (Some 6) 0%nat
      = Resolved (canvas, 1%nat) /\
    canvas_width canvas = 12 /\
    Ctm.lands (canvas_ops canvas) 0 12 = Some (4, 0) /\
    forall sx sy, 0 <= sx <= 16 -> 0 <= sy <= 12 ->
      forall px py, Ctm.lands (canvas_ops canvas) sx sy = Some (px, py) ->
                    4 <= px <= 16.
Proof.
  destruct (correctOrientationToCanvas Demo.host
              {| bm_width := 16; bm_height := 12 |} (Some 6) 0%nat)
    as [[canvas st']|e] eqn:E; [|vm_compute in E; discriminate].
  pose proof (correctOrientationToCanvas_lands _ _ _ _ _ _ E) as Hl.
  assert (Hc : canvas_width canvas = 12 /\ st' = 1%nat /\
               Ctm.lands (canvas_ops canvas) 0 12 = Some (4, 0)).
  { vm_compute in E. injection E as <- <-. repeat split. }
  destruct Hc as (Hcw & -> & Hland).
  exists canvas. split; [reflexivity|]. split; [exact Hcw|].
  split; [exact Hland|].
  intros sx sy Hx Hy px py Hp.
  destruct (Hl px py) as [Hfwd _].
  destruct Hfwd as [Hpx _]; [exists sx, sy; auto|].
  rewrite Hcw in Hpx. exact Hpx.
Defined.

End PipelineExtras.

Section SharpenExtras.

Import Pipeline.

(** ** applySharpen: the bytes written back *)


Lemma to_uint8_clamped_ge q v :
  byte v -> (inject_Z v <= q)%Q -> v <= to_uint8_clamped q.
Proof.
  unfold to_uint8_clamped, byte. intros Hv Hq.
  destruct (Qle_bool q 0) eqn:E0.
  { apply Qle_bool_iff in E0.
    assert (inject_Z v <= inject_Z 0)%Q as H
      by (eapply Qle_trans; [exact Hq|exact E0]).
    rewrite <- Zle_Qle in H. lia. }
  destruct (Qle_bool 255 q) eqn:E1; [lia|].
  assert (v <= Qfloor q).
  { rewrite <- (Qfloor_Z v). by apply Qfloor_resp_le. }
  destruct (_ ?= _)%Q; [destruct (Z.even _)|..]; lia.
Qed.

Lemma to_uint8_clamped_le q v :
  byte v -> (q <= inject_Z v)%Q -> to_uint8_clamped q <= v.
Proof.
  unfold to_uint8_clamped, byte. intros Hv Hq.
  destruct (Qle_bool q 0) eqn:E0; [lia|].
  destruct (Qle_bool 255 q) eqn:E1.
  { apply Qle_bool_iff in E1.
    assert (inject_Z 255 <= inject_Z v)%Q as H
      by (eapply Qle_trans; [exact E1|exact Hq]).
    rewrite <- Zle_Qle in H. lia. }
  assert (Hf : Qfloor q <= v).
  { rewrite <- (Qfloor_Z v). by apply Qfloor_resp_le. }
  destruct (Z.eq_dec (Qfloor q) v) as [Heq|Hne].
  - assert (Hlt : (q - inject_Z (Qfloor q) < 1 # 2)%Q).
    { rewrite Heq. apply Qle_lt_trans with 0%Q; [|reflexivity].
      apply Qle_minus_iff in Hq. apply Qle_minus_iff.
      eapply Qle_trans; [exact Hq|]. apply Qle_lteq. right. ring. }
    destruct (Qcompare_spec (q - inject_Z (Qfloor q)) (1 # 2))
      as [He|_|Hg]; [|lia|].
    + rewrite He in Hlt. discriminate Hlt.
    + exfalso. apply (Qlt_irrefl (1 # 2)). by eapply Qlt_trans.
  - destruct (_ ?= _)%Q; [destruct (Z.even _)|..]; lia.
Qed.


Lemma get_byte src width x y c :
  Forall byte src -> byte (get src width x y c).
Proof.
  intros H. unfold get.
  destruct (nth_in_or_default (index width x y c) src 0) as [Hin| ->].
  - rewrite List.Forall_forall in H. by apply H.
  - unfold byte. lia.
Qed.

Lemma convolve_cross src width x y c :
  convolve src width x y c
  = 5 * get src width x y c - cross src width x y c.
Proof.
  unfold convolve, cross.
  let l := eval vm_compute in (combine kernel_offsets weights) in
  change (combine kernel_offsets weights) with l.
  cbn [fold_left].
  replace (x + -1) with (x - 1) by lia.
  replace (y + -1) with (y - 1) by lia.
  rewrite !Z.add_0_r. lia.
Qed.

Section Channels.

Context (src : list Z) (width height : Z) (intensity : Q).

Lemma sharpen_pixel_colour out x y c :
  0 <= x < width -> 0 <= y -> 0 <= c <= 2 ->
  (index width x y 3 < length out)%nat ->
  sharpen_pixel src width intensity out x y !! index width x y c
  = Some (sharpen_channel src width intensity x y c).
Proof.
  intros Hx Hy Hc Hlen. unfold sharpen_pixel.
  rewrite list_lookup_insert_ne.
  2:{ intros Heq. apply index_inj in Heq as (_ & _ & ?); lia. }
  apply fold_left_lookup_written with (a := c).
  - apply elem_of_seqZ. lia.
  - apply NoDup_seqZ.
  - intros. apply length_insert.
  - intros out' Hl. apply list_lookup_insert_eq. rewrite Hl.
    unfold index in *. lia.
  - intros c' out' Hc'%elem_of_seqZ Hne. apply list_lookup_insert_ne.
    intros Heq. apply index_inj in Heq as (_ & _ & ?); lia.
Qed.

Lemma sharpen_row_colour out x y c :
  length out = length src ->
  length src = Z.to_nat (width * height * 4) ->
  1 <= x <= width - 2 -> 1 <= y <= height - 2 -> 0 <= c <= 2 ->
  sharpen_row src width intensity out y !! index width x y c
  = Some (sharpen_channel src width intensity x y c).
Proof.
  intros Hout Hlen Hx Hy Hc. unfold sharpen_row.
  apply fold_left_lookup_written with (a := x).
  - apply elem_of_seqZ. lia.
  - apply NoDup_seqZ.
  - intros. apply sharpen_pixel_length.
  - intros out' Hl. apply sharpen_pixel_colour; try lia.
    rewrite Hl, Hout, Hlen. unfold index. nia.
  - intros x' out' Hx'%elem_of_seqZ Hne. apply sharpen_pixel_other.
    intros c' Hc' Heq. apply index_inj in Heq as (? & _); lia.
Qed.

Lemma sharpen_data_interior_colour x y c :
  length src = Z.to_nat (width * height * 4) ->
  1 <= x <= width - 2 -> 1 <= y <= height - 2 -> 0 <= c <= 2 ->
  sharpen_data width height intensity src !! index width x y c
  = Some (sharpen_channel src width intensity x y c).
Proof.
  intros Hlen Hx Hy Hc. unfold sharpen_data.
  apply fold_left_lookup_written with (a := y).
  - apply elem_of_seqZ. lia.
  - apply NoDup_seqZ.
  - intros. apply sharpen_row_length.
  - intros out' Hl. apply sharpen_row_colour; try done.
    by rewrite Hl, length_replicate.
  - intros y' out' Hy'%elem_of_seqZ Hne. apply sharpen_row_other.
    intros x' c' Hx' Hc' Heq. apply index_inj in Heq as (_ & ? & _); lia.
Qed.



(** The value the loop body computes is the centre plus [intensity] times
    its excess over the four neighbours. *)
Lemma sharpen_value x y c :
  let v := get src width x y c in
  ((1 - intensity) * inject_Z v
   + intensity * (inject_Z (convolve src width x y c) / inject_Z wSum)
   == inject_Z v
      + intensity * inject_Z (4 * v - cross src width x y c))%Q.
Proof.
  intros v. rewrite convolve_cross. fold v.
  change (inject_Z wSum) with 1%Q.
  replace (5 * v - cross src width x y c)
    with (v + (4 * v - cross src width x y c)) by lia.
  rewrite inject_Z_plus. field.
Qed.

Lemma sharpen_channel_ge x y c :
  (0 <= intensity)%Q ->
  let v := get src width x y c in
  byte v -> cross src width x y c <= 4 * v ->
  v <= sharpen_channel src width intensity x y c.
Proof.
  intros Hi v Hv Hn. unfold sharpen_channel.
  apply to_uint8_clamped_ge; [done|].
  cbv zeta. rewrite sharpen_value. fold v.
  apply Q.max_le_iff. right. apply Q.min_glb.
  - change 255%Q with (inject_Z 255). rewrite <- Zle_Qle.
    unfold byte in Hv. lia.
  - rewrite <- (Qplus_0_r (inject_Z v)) at 1.
    apply Qplus_le_r. apply Qmult_le_0_compat; [done|].
    change 0%Q with (inject_Z 0). rewrite <- Zle_Qle. lia.
Qed.

Lemma sharpen_channel_le x y c :
  (0 <= intensity)%Q ->
  let v := get src width x y c in
  byte v -> 4 * v <= cross src width x y c ->
  sharpen_channel src width intensity x y c <= v.
Proof.
  intros Hi v Hv Hn. unfold sharpen_channel.
  apply to_uint8_clamped_le; [done|].
  cbv zeta. rewrite sharpen_value. fold v.
  apply Q.max_lub.
  - change 0%Q with (inject_Z 0). rewrite <- Zle_Qle.
    unfold byte in Hv. lia.
  - eapply Qle_trans; [apply Q.le_min_r|].
    rewrite <- (Qplus_0_r (inject_Z v)) at 2.
    apply Qplus_le_r.
    assert (He : (intensity * inject_Z (4 * v - cross src width x y c)
                  == - (intensity
                        * inject_Z (cross src width x y c - 4 * v)))%Q).
    { replace (4 * v - cross src width x y c)
        with (- (cross src width x y c - 4 * v)) by lia.
      rewrite inject_Z_opp. ring. }
    rewrite He. apply (Qopp_le_compat 0).
    apply Qmult_le_0_compat; [done|].
    change 0%Q with (inject_Z 0). rewrite <- Zle_Qle. lia.
Qed.

End Channels.

Lemma applySharpen_puts host ctx width height intensity :
  (0 < intensity)%Q ->
  canvas_ops (applySharpen host ctx width height intensity)
  = canvas_ops ctx
    ++ [PutImageData
          (sharpen_data width height intensity
             (getImageData host ctx 0 0 width height)) 0 0].
Proof.
  intros Hpos. unfold applySharpen.
  destruct (Qle_bool intensity 0) eqn:E; [|reflexivity].
  apply Qle_bool_iff in E. by apply Qlt_not_le in Hpos.
Qed.



(** X18.  What sharpening does to a colour channel of an interior pixel,
    for a raster read back in full and an intensity above zero: a value at
    least as high as the mean of its four neighbours is never lowered, a
    value at most as high as that mean is never raised, and a value equal to
    it, as in a flat region, is written back unchanged. *)
Theorem applySharpen_local_contrast (host : Host) (ctx : Canvas)
    (width height : Z) (intensity : Q) (x y c : Z) :
  (0 < intensity)%Q ->
  let src := getImageData host ctx 0 0 width height in
  length src = Z.to_nat (width * height * 4) ->
  Forall byte src ->
  1 <= x <= width - 2 -> 1 <= y <= height - 2 -> 0 <= c <= 2 ->
  let v := get src width x y c in
  let n := cross src width x y c in
  exists data v',
    canvas_ops (applySharpen host ctx width height intensity)
      = canvas_ops ctx ++ [PutImageData data 0 0] /\
    data !! index width x y c = Some v' /\
    (n <= 4 * v -> v <= v') /\
    (4 * v <= n -> v' <= v) /\
    (n = 4 * v -> v' = v).
Proof.
  intros Hpos src Hlen Hs Hx Hy Hc v n.
  assert (Hi : (0 <= intensity)%Q) by by apply Qlt_le_weak.
  exists (sharpen_data width height intensity src),
         (sharpen_channel src width intensity x y c).
  assert (Hv : byte v) by by apply get_byte.
  split; [by apply applySharpen_puts|].
  split; [by apply sharpen_data_interior_colour|].
  pose proof (sharpen_channel_ge src width intensity x y c Hi Hv) as Hge.
  pose proof (sharpen_channel_le src width intensity x y c Hi Hv) as Hle.
  fold v n in Hge, Hle.
  repeat split; intros; lia.
Qed.

Lemma applySharpen_local_contrast_witness :
  exists data,
    canvas_ops (applySharpen Demo.host Demo.oriented 4 3 (1 # 2))
      = [PutImageData data 0 0] /\
    data !! index 4 2 1 1 = Some 200.
Proof.
  destruct (applySharpen_local_contrast Demo.host Demo.oriented 4 3 (1 # 2)
              2 1 1)
    as (data & v' & Hops & Hv & _ & _ & Hflat);
    [reflexivity|reflexivity| |lia|lia|lia|].
  - apply Forall_replicate. unfold byte. lia.
  - exists data. split; [exact Hops|].
    rewrite Hv. f_equal. apply Hflat. reflexivity.
Defined.

End SharpenExtras.

(** ** processBatch: what holds of every run *)

Lemma foldM_resolved_ind {A S} (P : nat -> S -> Prop) (f : S -> A -> M S)
    l :
  (forall k s a st s' st',
      a ∈ l -> P k s -> f s a st = Resolved (s', st') ->
      P (Datatypes.S k) s') ->
  forall k s st s' st',
    P k s -> Pipeline.foldM f l s st = Resolved (s', st') ->
    P (k + length l)%nat s'.
Proof.
  induction l as [|a l IH]; intros Hstep k s st s' st' HP Hrun.
  - simpl in Hrun. injection Hrun as <- <-. by rewrite Nat.add_0_r.
  - simpl in Hrun. unfold bind in Hrun.
    destruct (f s a st) as [[s1 st1]|e] eqn:E; [|done].
    replace (k + length (a :: l))%nat with (Datatypes.S k + length l)%nat
      by (simpl; lia).
    eapply IH; [|eapply Hstep; [apply list_elem_of_here|exact HP|exact E]
               |exact Hrun].
    intros k' s0 a0 st0 s0' st0' Hin. apply Hstep.
    by apply list_elem_of_further.
Qed.


Lemma yields_step k :
  (if (S k mod 5 =? 0)%nat then S (k / 5) else k / 5)%nat = (S k / 5)%nat.
Proof.
  pose proof (Nat.div_mod_eq (S k) 5) as H1.
  pose proof (Nat.div_mod_eq k 5) as H2.
  assert (H3 : (k mod 5 < 5)%nat) by (apply Nat.mod_upper_bound; lia).
  assert (H4 : (S k mod 5 < 5)%nat) by (apply Nat.mod_upper_bound; lia).
  destruct (Nat.eqb_spec (S k mod 5) 0) as [Hm|Hm]; lia.
Qed.

Section Jobs.

Import Pipeline.

Context (host : Host) (globalOptions : GlobalOptions) (hasProgress : bool).
Context (files : list File) (presets : list Preset).

Let total := (length files * length presets)%nat.

Lemma extension_dotfree fmt : dotfree (extension fmt).
Proof. by destruct fmt. Qed.

Lemma transformSingle_name file preset i n st blob out st' :
  transformSingle host file preset globalOptions i n st
    = Resolved ((blob, out), st') ->
  exists nm, out = nm +:+ "." +:+ extension (format preset).
Proof.
  unfold transformSingle, bind, ret. intros H.
  destruct (loadImageWithMetadata host file st) as [[[bm ex] st1]|];
    [|done].
  destruct (correctOrientationToCanvas host bm (Orientation ex) st1)
    as [[oc st2]|]; [|done].
  destruct (composite host oc preset globalOptions st2) as [[cv st3]|];
    [|done].
  destruct (encode host cv preset globalOptions st3) as [[bl st4]|]; [|done].
  injection H as <- <- <-. eauto.
Qed.

Lemma unique_not_forbidden base (used : gset string) c used' :
  Utils.makeUniqueName (Utils.sanitizeFilename base Utils.defaultMaxLength)
    used = Some (c, used') ->
  c <> EmptyString /\ JsString.forallb not_forbidden c = true.
Proof.
  intros H.
  destruct (sanitizeFilename_general base Utils.defaultMaxLength)
    as (Hne & _ & Hok); [unfold Utils.defaultMaxLength; lia|].
  destruct (makeUniqueName_total
              (Utils.sanitizeFilename base Utils.defaultMaxLength) used)
    as (c' & Hrun & _ & Hshape).
  rewrite Hrun in H. injection H as <- <-.
  destruct Hshape as [[_ ->]|(_ & k & _ & -> & _)]; [done|].
  unfold suffixed. split.
  - destruct (Utils.sanitizeFilename base Utils.defaultMaxLength); done.
  - apply forallb_app; [done|]. apply forallb_app; [done|].
    apply of_N_not_forbidden.
Qed.

Lemma job_step k b i file preset st b' st' :
  preset ∈ presets -> job_inv hasProgress total presets k b ->
  job host globalOptions hasProgress (length files) total i file b preset st
    = Resolved (b', st') ->
  job_inv hasProgress total presets (S k) b'.
Proof.
  intros Hp (Hinv & Hc & Hy & Hn) Hrun.
  unfold job, bind in Hrun.
  destruct (transformSingle host file preset globalOptions i (length files)
              st) as [[[blob out] st1]|] eqn:Et; [|done].
  apply transformSingle_name in Et as [nm ->].
  destruct (fileArtifact_step hasProgress total preset blob
              (nm +:+ "." +:+ extension (format preset)) b Hinv)
    as (b1 & Hb1 & Hinv1 & Hc1 & _).
  rewrite Hb1 in Hrun. injection Hrun as <- <-.
  split; [done|]. split; [by rewrite Hc1, Hc|].
  unfold fileArtifact in Hb1.
  rewrite splitOutputName_joined in Hb1 by apply extension_dotfree.
  destruct (Utils.makeUniqueName _ _) as [[c used']|] eqn:Eu; [|done].
  apply unique_not_forbidden in Eu as [Hcne Hcok].
  injection Hb1 as <-. split.
  - cbn [yields completed]. rewrite Hc, Hy. apply yields_step.
  - intros folder fname Hsome. cbn [zip zip_files] in Hsome.
    destruct (decide ((folderNameOf preset,
                       c +:+ "." +:+ extension (format preset))
                      = (folder, fname))) as [[= <- <-]|Hne].
    + exists preset, c. done.
    + rewrite lookup_insert_ne in Hsome by done. by apply Hn.
Qed.

Lemma job_inv_empty : job_inv hasProgress total presets 0 emptyBatch.
Proof.
  split; [apply batch_inv_empty|]. split; [done|]. split; [done|].
  intros folder fname [v Hv]. simpl in Hv. by rewrite lookup_empty in Hv.
Qed.

Lemma presets_step j b i file st b' st' :
  job_inv hasProgress total presets (j * length presets) b ->
  foldM (job host globalOptions hasProgress (length files) total i file)
    presets b st = Resolved (b', st') ->
  job_inv hasProgress total presets (S j * length presets) b'.
Proof.
  intros Hinv Hrun.
  replace (S j * length presets)%nat
    with (j * length presets + length presets)%nat by lia.
  eapply (foldM_resolved_ind (job_inv hasProgress total presets));
    [|exact Hinv|exact Hrun].
  intros k s a st0 s' st0' Hin. by apply job_step.
Qed.

Lemma runJobs_resolved_inv st b st' :
  runJobs host files presets globalOptions hasProgress st
    = Resolved (b, st') ->
  job_inv hasProgress total presets total b.
Proof.
  unfold runJobs. intros Hrun.
  pose (P := fun j b =>
               job_inv hasProgress total presets (j * length presets) b).
  assert (H : P (0 + length (imap (fun i file => (i, file)) files))%nat b).
  { eapply (foldM_resolved_ind P); [|apply job_inv_empty|exact Hrun].
    intros k s [i file] st0 s' st0' _. apply presets_step. }
  unfold P in H. by rewrite length_imap in H.
Qed.





End Jobs.

Lemma demo_runJobs_resolves :
  exists b st',
    Pipeline.runJobs Demo.host [Demo.good; Demo.other; Demo.good]
      [Demo.web; Demo.print] Demo.options false 0%nat = Resolved (b, st').
Proof.
  destruct (runJobs_all_succeed Demo.host
              [Demo.good; Demo.other; Demo.good] [Demo.web; Demo.print]
              Demo.options false) with (st := 0%nat)
    as (b & st' & Hrun & _).
  - intros i file preset Hi Hp.
    apply (demo_jobs_resolve [Demo.good; Demo.other; Demo.good] _ i file
             preset Hi); [|exact Hp].
    apply list_elem_of_lookup_2 in Hi. set_solver.
  - eauto.
Qed.

(** X19.  Whenever the two loops of [processBatch] run to their end, on
    any host and with or without a progress callback: every pair of a file
    and a preset was counted, the archive holds as many entries as there are
    pairs, so no entry was overwritten, the loops yielded to the event loop
    once for every fifth job, and without a callback no progress was
    reported. *)
Theorem runJobs_counts (host : Pipeline.Host) (files : list Pipeline.File)
    (presets : list Pipeline.Preset)
    (globalOptions : Pipeline.GlobalOptions) (hasProgress : bool)
    (st st' : nat) (b : Pipeline.Batch) :
  Pipeline.runJobs host files presets globalOptions hasProgress st
    = Resolved (b, st') ->
  let total := (length files * length presets)%nat in
  Pipeline.completed b = total /\
  Pipeline.yields b = (total / 5)%nat /\
  size (Pipeline.zip_files (Pipeline.zip b)) = total /\
  (hasProgress = false -> Pipeline.progress b = []).
Proof.
  intros Hrun total.
  apply runJobs_resolved_inv in Hrun as ((Hs & _ & Hpr) & Hc & Hy & _).
  fold total in Hs, Hpr, Hc, Hy.
  split; [done|]. split; [done|]. split; [by rewrite Hs|].
  intros ->. done.
Qed.

Lemma runJobs_counts_witness :
  exists b st',
    Pipeline.runJobs Demo.host [Demo.good; Demo.other; Demo.good]
      [Demo.web; Demo.print] Demo.options false 0%nat = Resolved (b, st') /\
    Pipeline.completed b = 6%nat /\ Pipeline.yields b = 1%nat /\
    size (Pipeline.zip_files (Pipeline.zip b)) = 6%nat /\
    Pipeline.progress b = [].
Proof.
  destruct demo_runJobs_resolves as (b & st' & Hrun).
  exists b, st'. split; [exact Hrun|].
  destruct (runJobs_counts _ _ _ _ _ _ _ _ Hrun) as (Hc & Hy & Hs & Hp).
  split; [exact Hc|]. split; [exact Hy|]. split; [exact Hs|].
  apply Hp. reflexivity.
Defined.

(** X20.  Whenever the loops run to their end, every entry of the archive
    sits in the folder named after one of the presets, sanitized, and its
    name is a non-empty base without any forbidden character, a dot, and
    the extension of that preset's format, [jpg] for JPEG. *)
Theorem runJobs_entry_names (host : Pipeline.Host)
    (files : list Pipeline.File) (presets : list Pipeline.Preset)
    (globalOptions : Pipeline.GlobalOptions) (hasProgress : bool)
    (st st' : nat) (b : Pipeline.Batch) :
  Pipeline.runJobs host files presets globalOptions hasProgress st
    = Resolved (b, st') ->
  batch_names presets b.
Proof.
  intros Hrun. by apply runJobs_resolved_inv in Hrun as (_ & _ & _ & Hn).
Qed.

Lemma runJobs_entry_names_witness :
  exists b st',
    Pipeline.runJobs Demo.host [Demo.good; Demo.other; Demo.good]
      [Demo.web; Demo.print] Demo.options false 0%nat = Resolved (b, st') /\
    batch_names [Demo.web; Demo.print] b.
Proof.
  destruct demo_runJobs_resolves as (b & st' & Hrun).
  exists b, st'. split; [exact Hrun|].
  exact (runJobs_entry_names _ _ _ _ _ _ _ _ Hrun).
Defined.



(** ** The name of the archive *)

Section Prefixes.

Import ZipName.

Lemma prefix_refl s : String.prefix s s = true.
Proof.
  induction s as [|c r IH]; simpl; [done|]. by destruct (ascii_dec c c).
Qed.

Lemma prefix_nil s : String.prefix EmptyString s = true.
Proof. by destruct s. Qed.

Lemma prefix_trans a b c :
  String.prefix a b = true -> String.prefix b c = true ->
  String.prefix a c = true.
Proof.
  revert a b. induction c as [|z c IH]; intros a b Hab Hbc.
  - destruct b; [|done]. by destruct a.
  - destruct a as [|x a]; [done|]. destruct b as [|y b]; [done|].
    simpl in *. destruct (ascii_dec x y) as [->|]; [|done].
    destruct (ascii_dec y z) as [->|]; [|done]. eauto.
Qed.

Lemma commonPrefix2_l p v : String.prefix (commonPrefix2 p v) p = true.
Proof.
  revert v. induction p as [|a p IH]; intros v; simpl; [done|].
  destruct v as [|b v]; [done|].
  destruct (Ascii.eqb a b); simpl; [|done]. by destruct (ascii_dec a a).
Qed.

Lemma commonPrefix2_r p v : String.prefix (commonPrefix2 p v) v = true.
Proof.
  revert v. induction p as [|a p IH]; intros v; simpl; [apply prefix_nil|].
  destruct v as [|b v]; [done|].
  destruct (Ascii.eqb_spec a b) as [->|]; simpl; [|done].
  by destruct (ascii_dec b b).
Qed.

Lemma commonPrefix2_greatest q p v :
  String.prefix q p = true -> String.prefix q v = true ->
  String.prefix q (commonPrefix2 p v) = true.
Proof.
  revert p v.
  induction q as [|c q IH]; intros p v Hp Hv; [apply prefix_nil|].
  destruct p as [|a p]; [done|]. destruct v as [|b v]; [done|].
  simpl in *. destruct (ascii_dec c a) as [->|]; [|done].
  destruct (ascii_dec a b) as [->|]; [|done].
  rewrite Ascii.eqb_refl. simpl. destruct (ascii_dec b b); [|done]. eauto.
Qed.

Lemma commonPrefixLoop_spec p values :
  let r := commonPrefixLoop p values in
  String.prefix r p = true /\ common r values /\
  forall q, String.prefix q p = true -> common q values ->
            String.prefix q r = true.
Proof.
  revert p. induction values as [|v values IH]; intros p; simpl.
  - split; [apply prefix_refl|]. split; [constructor|done].
  - pose proof (commonPrefix2_l p v) as Hl.
    pose proof (commonPrefix2_r p v) as Hr.
    destruct (JsString.is_empty (commonPrefix2 p v)) eqn:E.
    + assert (He : commonPrefix2 p v = EmptyString)
        by by destruct (commonPrefix2 p v).
      rewrite He. split; [apply prefix_nil|]. split.
      * apply Forall_forall. intros. apply prefix_nil.
      * intros q Hq Hc. rewrite <- He.
        apply commonPrefix2_greatest; [done|]. by inversion Hc.
    + destruct (IH (commonPrefix2 p v)) as (H1 & H2 & H3).
      split; [by eapply prefix_trans|]. split.
      * constructor; [by eapply prefix_trans|done].
      * intros q Hq Hc. inversion Hc; subst.
        apply H3; [by apply commonPrefix2_greatest|done].
Qed.

Lemma prefix_take n s : String.prefix (JsString.take n s) s = true.
Proof.
  revert n. induction s as [|c s IH]; intros [|n]; simpl; try done.
  by destruct (ascii_dec c c).
Qed.

Lemma cutAtSeparator_prefix s : String.prefix (cutAtSeparator s) s = true.
Proof.
  unfold cutAtSeparator. destruct (lastSeparator 0 s); [|apply prefix_refl].
  destruct (_ <? _)%nat; [apply prefix_take|apply prefix_refl].
Qed.

End Prefixes.

(** X22.  For two names or more, the loop of [getCommonPrefix] finds their
    longest common beginning: every name starts with it, and whatever every
    name starts with is a beginning of it.  The result is that beginning cut
    back to its last separator, when there is one past the third character,
    and trimmed; every name still starts with the cut beginning, and the
    result is either empty or at least three characters long. *)
Theorem getCommonPrefix_longest (values : list string) :
  (2 <= length values)%nat ->
  let r := ZipName.getCommonPrefix values in
  (exists lcp,
      common lcp values /\
      (forall q, common q values -> String.prefix q lcp = true) /\
      common (cutAtSeparator lcp) values /\
      r = discardShort (cutAtSeparator lcp)) /\
  (r = EmptyString \/ (3 <= String.length r)%nat).
Proof.
  intros Hlen. destruct values as [|v [|v' rest]]; simpl in Hlen; try lia.
  cbv zeta. set (values := v' :: rest).
  destruct (commonPrefixLoop_spec v values) as (H1 & H2 & H3).
  set (lcp := ZipName.commonPrefixLoop v values) in *.
  assert (Hr : ZipName.getCommonPrefix (v :: values)
               = discardShort (cutAtSeparator lcp)).
  { unfold ZipName.getCommonPrefix, values. fold values. fold lcp.
    unfold discardShort, cutAtSeparator.
    destruct (0 <? String.length lcp)%nat eqn:E0; [done|].
    assert (lcp = EmptyString) as ->; [|done].
    apply Nat.ltb_ge in E0. destruct lcp; [done|simpl in E0; lia]. }
  split.
  - exists lcp. split; [by constructor|]. split.
    + intros q Hq. inversion Hq; subst. by apply H3.
    + split; [|done]. pose proof (cutAtSeparator_prefix lcp) as Hc.
      constructor; [by eapply prefix_trans|].
      eapply Forall_impl; [exact H2|]. intros x Hx. simpl in Hx.
      by eapply prefix_trans.
  - rewrite Hr. unfold discardShort.
    destruct (_ <? 3)%nat eqn:E; [by left|right]. by apply Nat.ltb_ge in E.
Qed.

Lemma getCommonPrefix_longest_witness :
  ZipName.getCommonPrefix ["holiday_rome_01"; "holiday_rome_02"]
    = "holiday_rome" /\
  common "holiday_rome" ["holiday_rome_01"; "holiday_rome_02"].
Proof.
  destruct (getCommonPrefix_longest ["holiday_rome_01"; "holiday_rome_02"])
    as [(lcp & _ & _ & Hcut & Hr) _]; [simpl; lia|].
  split; [reflexivity|].
  repeat constructor.
Defined.

(** X23.  Whatever the files are called and whatever the clock says, the
    name [computeZipFilename] returns is a stem followed by [.zip], and the
    stem is not empty, has at most 120 characters, none of them forbidden,
    and is not a reserved device name. *)
Theorem computeZipFilename_safe (files : list (option string))
    (now : string) :
  exists stem,
    ZipName.computeZipFilename files now = stem +:+ ".zip" /\
    stem <> EmptyString /\
    (String.length stem <= 120)%nat /\
    JsString.forallb not_forbidden stem = true /\
    Utils.reserved stem = false.
Proof.
  unfold ZipName.computeZipFilename.
  match goal with
  | |- context [Utils.sanitizeFilename ?s Utils.defaultMaxLength] =>
      exists (Utils.sanitizeFilename s Utils.defaultMaxLength);
      destruct (sanitizeFilename_general s Utils.defaultMaxLength)
        as (H1 & H2 & H3); [unfold Utils.defaultMaxLength; lia|]
  end.
  split; [reflexivity|]. split; [done|]. split; [done|]. split; [done|].
  apply sanitizeFilename_not_reserved. unfold Utils.defaultMaxLength. lia.
Qed.

(** ** The metadata injectors: the payload that comes back *)

Lemma split_free sep s : free sep s = true -> JsString.split sep s = [s].
Proof.
  unfold free. induction s as [|c r IH]; simpl; [done|].
  intros [Hc Hr]%andb_true_iff. apply negb_true_iff in Hc. rewrite Hc.
  by rewrite IH.
Qed.

Lemma split_app_sep sep a b :
  free sep a = true ->
  JsString.split sep (a +:+ String sep b) = a :: JsString.split sep b.
Proof.
  unfold free. induction a as [|c r IH]; simpl.
  - intros _. by rewrite Ascii.eqb_refl.
  - intros [Hc Hr]%andb_true_iff. apply negb_true_iff in Hc.
    rewrite Hc. by rewrite IH.
Qed.

Lemma split_app_free sep a s :
  free sep a = true ->
  head (JsString.split sep (a +:+ s))
  = Some (a +:+ default EmptyString (head (JsString.split sep s))).
Proof.
  unfold free. induction a as [|c r IH].
  - intros _. change (EmptyString +:+ s) with s.
    pose proof (split_ne_nil sep s).
    destruct (JsString.split sep s); [congruence|reflexivity].
  - simpl JsString.forallb. intros [Hc Hr]%andb_true_iff.
    apply negb_true_iff in Hc. specialize (IH Hr).
    change (String c r +:+ s) with (String c (r +:+ s)).
    cbn [JsString.split]. rewrite Hc.
    destruct (JsString.split sep (r +:+ s)) as [|p ps];
      [discriminate IH|].
    cbn [head] in IH. injection IH as ->. reflexivity.
Qed.

Lemma free_app sep s t :
  free sep s = true -> free sep t = true -> free sep (s +:+ t) = true.
Proof. apply forallb_app. Qed.

Section DataUrl.

Import Pipeline.

Context (host : Host) (px : Piexif).

Lemma reserialize_dataUrl zeroth dataUrl exifBytes mediaType payload bytes :
  free ","%char mediaType = true -> free ":"%char mediaType = true ->
  free ";"%char mediaType = true -> free ","%char payload = true ->
  piexif_dump px zeroth = Resolved exifBytes ->
  piexif_insert px exifBytes dataUrl
    = Resolved (dataUrlOf mediaType payload) ->
  atob host payload = Resolved bytes ->
  reserialize host px zeroth dataUrl
  = Resolved {| blob_bytes := bytes; blob_type := mediaType |}.
Proof.
  intros Hcomma Hcolon Hsemi Hpay Hdump Hins Hatob.
  unfold reserialize, rbind. rewrite Hdump, Hins.
  assert (H1 : JsString.split "," (dataUrlOf mediaType payload) !! 1%nat
               = Some payload).
  { unfold dataUrlOf.
    replace ("data:" +:+ mediaType +:+ ";base64," +:+ payload)
      with (("data:" +:+ mediaType +:+ ";base64")
            +:+ String ","%char payload).
    2:{ change ("data:" +:+ mediaType +:+ ";base64," +:+ payload)
          with ("data:" +:+ (mediaType +:+ (";base64" +:+ ("," +:+ payload)))).
        change ("data:" +:+ mediaType +:+ ";base64")
          with ("data:" +:+ (mediaType +:+ ";base64")).
        rewrite !append_assoc. reflexivity. }
    rewrite split_app_sep.
    2:{ apply (free_app _ "data:"); [reflexivity|].
        apply free_app; [done|reflexivity]. }
    rewrite split_free by done. reflexivity. }
  rewrite H1. change (default "undefined" (Some payload)) with payload.
  rewrite Hatob.
  assert (H2 : exists tail,
             JsString.split ":" (dataUrlOf mediaType payload) !! 1%nat
             = Some (mediaType +:+ String ";"%char tail)).
  { unfold dataUrlOf.
    change ("data:" +:+ mediaType +:+ ";base64," +:+ payload)
      with ("data" +:+ String ":"%char
              (mediaType +:+ (";base64," +:+ payload))).
    rewrite split_app_sep by reflexivity.
    pose proof (split_app_free ":"%char mediaType (";base64," +:+ payload)
                  Hcolon) as Hh.
    rewrite (split_app_free ":"%char ";base64," payload eq_refl) in Hh.
    set (x := default EmptyString (head (JsString.split ":" payload))) in Hh.
    change (default EmptyString (Some (";base64," +:+ x)))
      with (String ";"%char ("base64," +:+ x)) in Hh.
    destruct (JsString.split ":" (mediaType +:+ ";base64," +:+ payload))
      as [|p ps]; [discriminate Hh|].
    cbn [head] in Hh. injection Hh as ->.
    exists ("base64," +:+ x). reflexivity. }
  destruct H2 as [tail ->].
  rewrite split_app_sep by done. reflexivity.
Qed.

End DataUrl.

(** X24.  What the two injectors return when piexif accepts the image: the
    tags handed to [piexif.dump] are the two resolutions [dpi/1] and the unit
    2 (inches) for the density, and the image description, when there is
    one, for the comment; and from the data URL that [piexif.insert] gives
    back, the new payload takes its bytes from what follows the comma,
    decoded, and its type from what stands between the colon and the first
    semicolon. *)
Theorem injectors_rebuild_blob (host : Pipeline.Host) (px : Pipeline.Piexif)
    (blob : Pipeline.Blob) (dpi : Z) (productName comment : option string)
    (mediaType payload bytes : string) :
  Pipeline.piexif host = Some px ->
  free ","%char mediaType = true -> free ":"%char mediaType = true ->
  free ";"%char mediaType = true -> free ","%char payload = true ->
  Pipeline.atob host payload = Resolved bytes ->
  let dataUrl := Pipeline.readAsDataURL host blob in
  let rebuilt :=
    {| Pipeline.blob_bytes := bytes; Pipeline.blob_type := mediaType |} in
  let desc := Pipeline.description productName comment in
  (forall exifBytes,
      0 < dpi ->
      Pipeline.piexif_dump px (dpiTags dpi) = Resolved exifBytes ->
      Pipeline.piexif_insert px exifBytes dataUrl
        = Resolved (dataUrlOf mediaType payload) ->
      Pipeline.injectJpegDpiIfNeeded host blob dpi = Resolved rebuilt) /\
  (forall exifBytes,
      Pipeline.piexif_dump px
        (if JsString.is_empty desc then ∅
         else {[Pipeline.ImageDescription := Pipeline.IfdAscii desc]})
        = Resolved exifBytes ->
      Pipeline.piexif_insert px exifBytes dataUrl
        = Resolved (dataUrlOf mediaType payload) ->
      Pipeline.injectJpegComment host blob productName comment
        = Resolved rebuilt).
Proof.
  intros Hpx Hcomma Hcolon Hsemi Hpay Hatob dataUrl rebuilt desc. split.
  - intros exifBytes Hdpi Hdump Hins.
    unfold Pipeline.injectJpegDpiIfNeeded, Pipeline.injectJpegDpi_try.
    replace (dpi <=? 0) with false by (symmetry; apply Z.leb_gt; lia).
    rewrite Hpx.
    pose proof (reserialize_dataUrl host px _ _ exifBytes mediaType payload
                  bytes Hcomma Hcolon Hsemi Hpay Hdump Hins Hatob) as Hre.
    unfold dpiTags, dataUrl in Hre. by rewrite Hre.
  - intros exifBytes Hdump Hins.
    unfold Pipeline.injectJpegComment, Pipeline.injectJpegComment_try.
    rewrite Hpx. fold desc.
    assert (Hz : (if JsString.is_empty desc
                  then (∅ : gmap Z Pipeline.IfdValue)
                  else <[Pipeline.ImageDescription
                         := Pipeline.IfdAscii desc]> ∅)
                 = (if JsString.is_empty desc then ∅
                    else {[Pipeline.ImageDescription
                           := Pipeline.IfdAscii desc]})).
    { destruct (JsString.is_empty desc); [done|].
      by rewrite insert_empty. }
    rewrite Hz.
    pose proof (reserialize_dataUrl host px _ _ exifBytes mediaType payload
                  bytes Hcomma Hcolon Hsemi Hpay Hdump Hins Hatob) as Hre.
    unfold dataUrl in Hre. by rewrite Hre.
Qed.

Lemma injectors_rebuild_blob_witness :
  Pipeline.injectJpegDpiIfNeeded lenientHost
    {| Pipeline.blob_bytes := "pixels"; Pipeline.blob_type := "image/jpeg" |}
    300
  = Resolved {| Pipeline.blob_bytes := "pixelsExif";
                Pipeline.blob_type := "image/jpeg" |}.
Proof.
  destruct (injectors_rebuild_blob lenientHost lenientPiexif
              {| Pipeline.blob_bytes := "pixels";
                 Pipeline.blob_type := "image/jpeg" |}
              300 None None "image/jpeg" "pixelsExif" "pixelsExif"
              eq_refl eq_refl eq_refl eq_refl eq_refl eq_refl)
    as [Hdpi _].
  apply (Hdpi "Exif"); [lia|reflexivity|reflexivity].
Defined.
